(** * deep-research: the prompt trimmer, the backoff wrapper and the
      recursive research orchestrator

    A shallow embedding of [src/ai/providers.ts] ([trimPrompt]),
    [src/ai/retry.ts] ([withExponentialBackoff]) and
    [src/deep-research.ts] ([deepResearch]), followed by the properties
    the specification states about them.

    Conventions.
    - A JavaScript string is a sequence of code units; the model keeps
      Rocq's [string] (code units below 256).
    - A JavaScript integer-valued number is a [Z].
    - A promise that settles is a value of [settled]; remote
      collaborators (the tokenizer, the text splitter, the search
      service, the text-generation service) are parameters.
    - A rejection is an error object, with or without a message; the
      module [AnyRejection] goes through the retry loop and the
      orchestrator again for the other values a promise can be rejected
      with ([null], [undefined], a message that is not a string).
    - [Math.ceil(parseFloat(s) * 1000)] is computed in binary64, with
      the operations of [SpecFloat]. *)

From Stdlib Require Import ZArith List String Ascii Bool Arith Lia.
From Stdlib Require Import DecimalString SpecFloat.
Import ListNotations.
Local Open Scope string_scope.
Local Open Scope Z_scope.

(* ================================================================= *)
(** * Part I: definitions *)
(* ================================================================= *)

(** ** JavaScript string and array primitives used by the sources *)

(** The first [n] code units of [s]. *)
Fixpoint take (n : nat) (s : string) : string :=
  match n, s with
  | O, _ => EmptyString
  | S _, EmptyString => EmptyString
  | S n', String c s' => String c (take n' s')
  end.

(** [s.slice(0, e)]: a negative end counts from the end of the string. *)
Definition slice0 (e : Z) (s : string) : string :=
  if e <? 0 then take (Z.to_nat (Z.of_nat (String.length s) + e)) s
  else take (Z.to_nat e) s.

(** [!s] on a string: only the empty string is falsy. *)
Definition is_empty (s : string) : bool :=
  match s with EmptyString => true | String _ _ => false end.

(** [arr.slice(0, e)] on an array. *)
Definition array_slice0 {A : Type} (e : Z) (l : list A) : list A :=
  if e <? 0 then firstn (Z.to_nat (Z.of_nat (List.length l) + e)) l
  else firstn (Z.to_nat e) l.

(** White space and line terminators removed by [String.prototype.trim]
    (those below 256: TAB, LF, VT, FF, CR, SP, NBSP). *)
Definition is_white (c : ascii) : bool :=
  let n := nat_of_ascii c in
  ((9 <=? n) && (n <=? 13) || (n =? 32) || (n =? 160))%nat.

Fixpoint trimStart (s : string) : string :=
  match s with
  | EmptyString => EmptyString
  | String c s' => if is_white c then trimStart s' else s
  end.

Fixpoint trimEnd (s : string) : string :=
  match s with
  | EmptyString => EmptyString
  | String c s' =>
      match trimEnd s' with
      | EmptyString => if is_white c then EmptyString else String c EmptyString
      | t => String c t
      end
  end.

(** [s.trim()] *)
Definition js_trim (s : string) : string := trimEnd (trimStart s).

(** [s.toLowerCase()] on code units below 256. *)
Definition lower (c : ascii) : ascii :=
  let n := nat_of_ascii c in
  if ((65 <=? n) && (n <=? 90)
      || (192 <=? n) && (n <=? 222) && negb (n =? 215))%nat
  then ascii_of_nat (n + 32) else c.

Fixpoint toLowerCase (s : string) : string :=
  match s with
  | EmptyString => EmptyString
  | String c s' => String (lower c) (toLowerCase s')
  end.

(** [hay.includes(needle)] *)
Fixpoint includes (hay needle : string) : bool :=
  prefix needle hay
  || match hay with
     | EmptyString => false
     | String _ hay' => includes hay' needle
     end.

(** lodash [compact] on an array of optional strings: drops
    [undefined]/[null] and the (falsy) empty string. *)
Fixpoint compact (l : list (option string)) : list string :=
  match l with
  | [] => []
  | None :: l' => compact l'
  | Some s :: l' => if is_empty s then compact l' else s :: compact l'
  end.

(** [[...new Set(xs)]]: the distinct elements of [xs] in the order of
    their first occurrence. *)
Fixpoint set_add (seen : list string) (x : string) : list string :=
  match seen with
  | [] => [x]
  | y :: seen' => if String.eqb y x then seen else y :: set_add seen' x
  end.

Definition set_spread (xs : list string) : list string :=
  fold_left set_add xs [].

(** ** [trimPrompt] (src/ai/providers.ts) *)

Definition MinChunkSize : Z := 140.

(** What one activation of [trimPrompt] does: it returns, or it calls
    itself on another text with the same context size. *)
Inductive activation : Type :=
| Return (result : string)
| Recurse (prompt : string).

Section TrimPrompt.

(** [encoder.encode] of js-tiktoken: a fixed deterministic tokenizer. *)
Variable token : Type.
Variable encode : string -> list token.

(** [new RecursiveCharacterTextSplitter({chunkSize, chunkOverlap: 0})
    .splitText(text)]; the chunk size is the first argument. *)
Variable splitText : Z -> string -> list string.

Definition tokenCount (s : string) : Z := Z.of_nat (List.length (encode s)).

Definition chunkSizeOf (prompt : string) (contextSize : Z) : Z :=
  let length := tokenCount prompt in
  let overflowTokens := length - contextSize in
  Z.of_nat (String.length prompt) - overflowTokens * 3.

(** The body of [trimPrompt], line by line. *)
Definition trimPrompt_body (prompt : string) (contextSize : Z) : activation :=
  if is_empty prompt then Return ""
  else
    let length := tokenCount prompt in
    if length <=? contextSize then Return prompt
    else
      let overflowTokens := length - contextSize in
      let chunkSize := Z.of_nat (String.length prompt) - overflowTokens * 3 in
      if chunkSize <? MinChunkSize then Return (slice0 MinChunkSize prompt)
      else
        let trimmedPrompt := hd "" (splitText chunkSize prompt) in
        if (String.length trimmedPrompt =? String.length prompt)%nat
        then Recurse (slice0 chunkSize prompt)
        else Recurse trimmedPrompt.

(** [trimPrompt] itself: [fuel] bounds the number of nested
    activations, [None] means the bound was reached. *)
Fixpoint trimPrompt (fuel : nat) (prompt : string) (contextSize : Z)
  : option string :=
  match fuel with
  | O => None
  | S fuel' =>
      match trimPrompt_body prompt contextSize with
      | Return result => Some result
      | Recurse prompt' => trimPrompt fuel' prompt' contextSize
      end
  end.

(** The texts [trimPrompt] is applied to, in the course of one call. *)
Inductive visits (contextSize : Z) : string -> string -> Prop :=
| visits_here : forall p, visits contextSize p p
| visits_next : forall p q r,
    trimPrompt_body p contextSize = Recurse q ->
    visits contextSize q r ->
    visits contextSize p r.

End TrimPrompt.

Arguments tokenCount {token} encode s.
Arguments chunkSizeOf {token} encode prompt contextSize.
Arguments trimPrompt_body {token} encode splitText prompt contextSize.
Arguments trimPrompt {token} encode splitText fuel prompt contextSize.
Arguments visits {token} encode splitText contextSize _ _.

(** Modelled from the spec: the splitter of [./text-splitter] is not
    among the sources.  The specification describes its chunks as "not
    exceeding targetLen characters"; [trimPrompt] only asks for chunk
    sizes from [MinChunkSize] up to the length of the text, so what is
    used of that description is that the first chunk is no longer than
    the text it was cut from. *)
Definition splitter_bounded (splitText : Z -> string -> list string) : Prop :=
  forall (chunkSize : Z) (text : string),
    MinChunkSize <= chunkSize <= Z.of_nat (String.length text) ->
    (String.length (hd "" (splitText chunkSize text)) <= String.length text)%nat.

(** The stronger reading, word for word: no chunk exceeds the chunk size. *)
Definition splitter_within_chunkSize (splitText : Z -> string -> list string) : Prop :=
  forall (chunkSize : Z) (text chunk : string),
    In chunk (splitText chunkSize text) ->
    Z.of_nat (String.length chunk) <= chunkSize.


(** Two concrete collaborators, used to run the definitions. *)

(** A tokenizer that makes every code unit a token. *)
Definition unitTokens (s : string) : list ascii := list_ascii_of_string s.

(** Raw character slicing: consecutive pieces of [chunkSize] code units. *)
Fixpoint drop (n : nat) (s : string) : string :=
  match n, s with
  | O, _ => s
  | S _, EmptyString => EmptyString
  | S n', String _ s' => drop n' s'
  end.

Fixpoint slices (fuel : nat) (n : nat) (s : string) : list string :=
  match fuel with
  | O => []
  | S fuel' =>
      if is_empty s then [] else take n s :: slices fuel' n (drop n s)
  end.

Definition sliceSplitter (chunkSize : Z) (text : string) : list string :=
  slices (String.length text) (Z.to_nat chunkSize) text.

Fixpoint replicate (n : nat) (c : ascii) : string :=
  match n with
  | O => EmptyString
  | S n' => String c (replicate n' c)
  end.

(** ** [withExponentialBackoff] (src/ai/retry.ts) *)

(** An error object; [message] may be absent. *)
Record Error : Type := mkError { message : option string }.

(** What a promise settles to. *)
Inductive settled (A : Type) : Type :=
| Fulfilled (value : A)
| Failed (error : Error).
Arguments Fulfilled {A} value.
Arguments Failed {A} error.

(** What [withExponentialBackoff] can throw: the initial [lastError]
    is [null], everything else is an error object. *)
Inductive thrown : Type :=
| ThrownNull
| ThrownError (error : Error).

Definition MaxRetries : Z := 5.
Definition InitialRetryDelay : Z := 1000.

Record RetryOptions : Type := mkRetryOptions {
  maxRetries : option Z;
  initialRetryDelay : option Z
}.

Definition noOptions : RetryOptions :=
  {| maxRetries := None; initialRetryDelay := None |}.

(** [a ?? b] *)
Definition nullish {A : Type} (a : option A) (b : A) : A :=
  match a with Some x => x | None => b end.

(** [!error.message?.toLowerCase().includes('rate limit')], negated. *)
Definition isRateLimit (error : Error) : bool :=
  match message error with
  | None => false
  | Some m => includes (toLowerCase m) "rate limit"
  end.

(** The regular expression of the catch block: the words
    [try again in ], then digits, an optional dot, more digits (the
    captured group), then the letter [s]; case is ignored. *)
Definition is_digit (c : ascii) : bool :=
  let n := nat_of_ascii c in ((48 <=? n) && (n <=? 57))%nat.

Fixpoint span_digits (s : string) : string * string :=
  match s with
  | EmptyString => (EmptyString, EmptyString)
  | String c s' =>
      if is_digit c
      then let (d, r) := span_digits s' in (String c d, r)
      else (EmptyString, s)
  end.

(** Strip the literal [lit] from the front of [s], ignoring ASCII case. *)
Fixpoint strip_ci (lit s : string) : option string :=
  match lit, s with
  | EmptyString, _ => Some s
  | String _ _, EmptyString => None
  | String a lit', String b s' =>
      if Ascii.eqb (lower a) (lower b) && (nat_of_ascii b <? 128)%nat
      then strip_ci lit' s' else None
  end.

Definition starts_with_s (s : string) : bool :=
  match s with
  | String c _ => Ascii.eqb c "s" || Ascii.eqb c "S"
  | EmptyString => false
  end.

(** A match of the expression starting exactly at the front of [s];
    the result is the captured group.  The quantifiers are greedy, and
    backtracking cannot rescue a failed greedy attempt: giving back a
    digit or the dot leaves a digit or a dot where the [s] is wanted. *)
Definition match_here (s : string) : option string :=
  match strip_ci "try again in " s with
  | None => None
  | Some r =>
      let (d1, r1) := span_digits r in
      if is_empty d1 then None
      else
        match r1 with
        | String "." r2 =>
            let (d2, r3) := span_digits r2 in
            if starts_with_s r3 then Some (d1 ++ "." ++ d2)%string else None
        | _ => if starts_with_s r1 then Some d1 else None
        end
  end.

(** [error.message.match(...)]: the leftmost match, its group 1. *)
Fixpoint waitMatch (s : string) : option string :=
  match match_here s with
  | Some g => Some g
  | None =>
      match s with
      | EmptyString => None
      | String _ s' => waitMatch s'
      end
  end.

(** One observable run of the wrapper: how it settled, how many times
    the operation was invoked, and the delays slept, in order. *)
Record Run (T : Type) : Type := mkRun {
  outcome : T + thrown;
  calls : nat;
  sleeps : list Z
}.
Arguments mkRun {T} outcome calls sleeps.
Arguments outcome {T} r.
Arguments calls {T} r.
Arguments sleeps {T} r.

Section Backoff.

Variable T : Type.

(** [Math.ceil(parseFloat(group) * 1000)], computed by the runtime in
    binary64 floating point. *)
Variable ceilMillis : string -> Z.

(** The operation: [fn k] is what the promise returned by the
    [k]-th invocation (counting from 0) settles to. *)
Variable fn : nat -> settled T.

(** The wait chosen in the catch block at attempt [attempt]. *)
Definition waitTimeOf (initialRetryDelay : Z) (attempt : Z) (m : string) : Z :=
  let waitTime :=
    match waitMatch m with
    | Some g => Some (ceilMillis g)
    | None => None
    end in
  (* if (!waitTime): null and 0 are falsy *)
  match waitTime with
  | Some w => if w =? 0 then initialRetryDelay * 2 ^ attempt else w
  | None => initialRetryDelay * 2 ^ attempt
  end.

Definition exhausted (maxRetries : Z) (lastError : Error) : Error :=
  {| message := Some ("Failed after "
                      ++ NilZero.string_of_int (Z.to_int maxRetries)
                      ++ " attempts with error: "
                      ++ nullish (message lastError) "undefined")%string |}.

(** The [for] loop; [remaining] is the number of iterations the loop
    test [attempt < maxRetries] still admits. *)
Fixpoint attempts (maxRetries initialRetryDelay : Z) (remaining : nat)
    (attempt : nat) (lastError : thrown) (slept : list Z) : Run T :=
  match remaining with
  | O => mkRun (inr lastError) attempt slept
  | S remaining' =>
      match fn attempt with
      | Fulfilled v => mkRun (inl v) (S attempt) slept
      | Failed error =>
          if negb (isRateLimit error)
          then mkRun (inr (ThrownError error)) (S attempt) slept
          else if Z.of_nat attempt =? maxRetries - 1
          then mkRun (inr (ThrownError (exhausted maxRetries error)))
                     (S attempt) slept
          else
            let waitTime :=
              waitTimeOf initialRetryDelay (Z.of_nat attempt)
                         (nullish (message error) "") in
            attempts maxRetries initialRetryDelay remaining' (S attempt)
                     (ThrownError error) (slept ++ [waitTime])
      end
  end.

Definition withExponentialBackoff (options : RetryOptions) : Run T :=
  let maxRetries := nullish (maxRetries options) MaxRetries in
  let initialRetryDelay :=
    nullish (initialRetryDelay options) InitialRetryDelay in
  attempts maxRetries initialRetryDelay (Z.to_nat maxRetries) 0
           ThrownNull [].

End Backoff.

Arguments attempts {T} ceilMillis fn maxRetries initialRetryDelay
  remaining attempt lastError slept.
Arguments withExponentialBackoff {T} ceilMillis fn options.

(** Exact decimal reading of a captured group, rounded up to whole
    milliseconds; it agrees with the runtime on whole numbers of
    seconds, and is used to run the definitions on such messages.  The
    conversion the runtime does is [ceilMillis_binary64] below. *)
Fixpoint digits_value (acc : Z) (s : string) : Z :=
  match s with
  | EmptyString => acc
  | String c s' => digits_value (10 * acc + (Z.of_nat (nat_of_ascii c) - 48)) s'
  end.

Definition ceilMillis_decimal (g : string) : Z :=
  let (int_part, rest) := span_digits g in
  let frac := match rest with String _ f => fst (span_digits f) | EmptyString => EmptyString end in
  let scale := 10 ^ Z.of_nat (String.length frac) in
  digits_value 0 int_part * 1000
  + (digits_value 0 frac * 1000 + scale - 1) / scale.

(** [Math.ceil(parseFloat(group) * 1000)] as the runtime computes it, in
    binary64 (53 bits of precision, exponents below 1024, round to
    nearest, ties to even), with the operations of the Standard
    Library's [SpecFloat].

    [parseFloat] of a captured group, which is made of digits, then
    possibly a dot and more digits: the binary64 number nearest to the
    decimal numeral, that is the quotient of the integer written by all
    the digits and the power of ten that the fraction digits call for,
    rounded once ([SFdiv] divides the two integers exactly and rounds
    the quotient; they need not be binary64 numbers themselves). *)
Definition binary64_of (m : Z) : spec_float := binary_normalize 53 1024 m 0 false.

Definition parseFloat (g : string) : spec_float :=
  let (int_part, rest) := span_digits g in
  let frac :=
    match rest with
    | String "." f => fst (span_digits f)
    | _ => EmptyString
    end in
  match digits_value 0 (int_part ++ frac), 10 ^ Z.of_nat (String.length frac) with
  | Zpos num, Zpos den =>
      SFdiv 53 1024 (S754_finite false num 0) (S754_finite false den 0)
  | _, _ => S754_zero false
  end.

(** [Math.ceil] of a binary64 number, as an integer; [Infinity], which
    a numeral of more than three hundred digits gives, is rendered as
    [2 ^ 1024], the first power of two beyond the finite numbers. *)
Definition Math_ceil (x : spec_float) : Z :=
  match x with
  | S754_zero _ => 0
  | S754_finite s m e =>
      let v := if s then Zneg m else Zpos m in
      if 0 <=? e then v * 2 ^ e else - ((- v) / 2 ^ (- e))
  | S754_infinity s => if s then - 2 ^ 1024 else 2 ^ 1024
  | S754_nan => 0
  end.

Definition ceilMillis_binary64 (g : string) : Z :=
  Math_ceil (SFmul 53 1024 (parseFloat g) (binary64_of 1000)).

(** A binary64 number that is not negative (and not [-0]). *)
Definition unsigned (x : spec_float) : Prop :=
  match x with
  | S754_zero s | S754_infinity s | S754_finite s _ _ => s = false
  | S754_nan => True
  end.

(** The delay slept after attempt [k] has failed with [errors k]. *)
Definition delayAfter (ceilMillis : string -> Z) (errors : nat -> Error)
    (d : Z) (k : nat) : Z :=
  waitTimeOf ceilMillis d (Z.of_nat k) (nullish (message (errors k)) "").

(** A sample operation: two rate-limit failures, then success. *)
Definition sampleErrors (k : nat) : Error :=
  match k with
  | O => mkError (Some "Rate limit reached. Please try again in 1.5s.")
  | _ => mkError (Some "429: RATE LIMIT exceeded")
  end.

Definition sampleOperation (k : nat) : settled nat :=
  if (k <? 2)%nat then Failed (sampleErrors k) else Fulfilled 42%nat.

Definition sampleOptions : RetryOptions :=
  {| maxRetries := Some 3; initialRetryDelay := None |}.

(** ** [deepResearch] (src/deep-research.ts) *)

Record ResearchResult : Type := mkResult {
  learnings : list string;
  visitedUrls : list string
}.

(** One generated query with its research goal. *)
Record SerpQuery : Type := mkSerpQuery {
  query : string;
  researchGoal : string
}.

(** One document of a Firecrawl [SearchResponse]. *)
Record SearchItem : Type := mkItem {
  url : option string;
  markdown : option string
}.

Record SearchResponse : Type := mkResponse { data : list SearchItem }.

(** The object returned by the extraction call. *)
Record Findings : Type := mkFindings {
  newLearnings : list string;
  followUpQuestions : list string
}.

(** How an [async] function ends: its promise is fulfilled, rejected,
    or (in the model only) still [Pending] when the fuel ran out. *)
Inductive promise (A : Type) : Type :=
| Resolved (value : A)
| Rejected (error : Error)
| Pending.
Arguments Resolved {A} value.
Arguments Rejected {A} error.
Arguments Pending {A}.

(** [await Promise.all(ps)] for tasks that run one after the other
    ([ConcurrencyLimit] is 1): the values of all of them, or the first
    rejection. *)
Fixpoint promise_all {A : Type} (ps : list (promise A)) : promise (list A) :=
  match ps with
  | [] => Resolved []
  | Resolved v :: ps' =>
      match promise_all ps' with
      | Resolved vs => Resolved (v :: vs)
      | Rejected e => Rejected e
      | Pending => Pending
      end
  | Rejected e :: _ => Rejected e
  | Pending :: _ => Pending
  end.

(** [arr.map((x, i) => f i x)], the index made explicit. *)
Fixpoint map_from {A B : Type} (i : nat) (f : nat -> A -> B) (l : list A) : list B :=
  match l with
  | [] => []
  | x :: l' => f i x :: map_from (S i) f l'
  end.

Definition ConcurrencyLimit : Z := 1.

(** [Math.ceil(breadth / 2)] on an integer. *)
Definition halve_up (breadth : Z) : Z := (breadth + 1) / 2.

(** The position of a call in the tree of invocations: the indices of
    the branches taken from the root. *)
Definition position : Type := list nat.

Definition emptyResult : ResearchResult :=
  {| learnings := []; visitedUrls := [] |}.

(** The template literal of the next query, trimmed. *)
Definition nextQueryOf (serpQuery : SerpQuery) (found : Findings) : string :=
  let nl := String (ascii_of_nat 10) EmptyString in
  js_trim (nl ++ "            Previous research goal: " ++ researchGoal serpQuery
           ++ nl ++ "            Follow-up research directions: "
           ++ String.concat "" (map (fun q => nl ++ q) (followUpQuestions found))
           ++ nl ++ "          ")%string.

Section Orchestrator.

(** The text-generation service asked for queries: the validated
    [res.object.queries], or the failure of the call. *)
Variable generateQueries :
  position -> string -> Z -> list string -> settled (list SerpQuery).

(** [firecrawl.search(query, {timeout: 15000, limit: 5, ...})]. *)
Variable search : position -> string -> settled SearchResponse.

(** The text-generation service asked for findings, with the 60 s
    abort signal: arguments are the query, the trimmed contents, the
    number of learnings and of follow-up questions. *)
Variable generateFindings :
  position -> string -> list string -> Z -> Z -> settled Findings.

(** [trimPrompt] of providers.ts, as seen by its callers. *)
Variable trimPrompt_ : string -> Z -> string.

Definition generateSerpQueries (here : position) (query : string)
    (numQueries : Z) (learnings : list string) : settled (list SerpQuery) :=
  match generateQueries here query numQueries learnings with
  | Fulfilled queries => Fulfilled (array_slice0 numQueries queries)
  | Failed e => Failed e
  end.

Definition processSerpResult (here : position) (query : string)
    (result : SearchResponse) (numLearnings numFollowUpQuestions : Z)
    : settled Findings :=
  let contents :=
    map (fun content => trimPrompt_ content 25000)
        (compact (map markdown (data result))) in
  generateFindings here query contents numLearnings numFollowUpQuestions.

(** The function passed to [limit(...)] for the [i]-th query;
    [recurse] is [deepResearch] itself. *)
Definition branchTask
    (recurse : position -> string -> Z -> Z -> list string -> list string
               -> promise ResearchResult)
    (here : position) (breadth depth : Z)
    (learnings visitedUrls : list string)
    (i : nat) (serpQuery : SerpQuery) : promise ResearchResult :=
  let branch := (here ++ [i])%list in
  (* try { *)
  match search branch (query serpQuery) with
  | Failed _ => Resolved emptyResult                       (* catch *)
  | Fulfilled result =>
      let newUrls := compact (map url (data result)) in
      let newBreadth := halve_up breadth in
      let newDepth := depth - 1 in
      match processSerpResult branch (query serpQuery) result 3 newBreadth with
      | Failed _ => Resolved emptyResult                   (* catch *)
      | Fulfilled found =>
          let allLearnings := (learnings ++ newLearnings found)%list in
          let allUrls := (visitedUrls ++ newUrls)%list in
          if newDepth >? 0
          then
            (* [return deepResearch(...)] without [await]: the promise
               is handed back as it is, outside the reach of [catch] *)
            recurse branch (nextQueryOf serpQuery found)
                    newBreadth newDepth allLearnings allUrls
          else
            Resolved {| learnings := allLearnings; visitedUrls := allUrls |}
      end
  end.

(** The last statement of [deepResearch]. *)
Definition mergeResults (results : list ResearchResult) : ResearchResult :=
  {| learnings := set_spread (flat_map learnings results);
     visitedUrls := set_spread (flat_map visitedUrls results) |}.

Fixpoint deepResearch (fuel : nat) (here : position) (query : string)
    (breadth depth : Z) (learnings visitedUrls : list string)
    : promise ResearchResult :=
  match fuel with
  | O => Pending
  | S fuel' =>
      match generateSerpQueries here query breadth learnings with
      | Failed e => Rejected e
      | Fulfilled serpQueries =>
          match
            promise_all
              (map_from 0
                 (branchTask (deepResearch fuel') here breadth depth
                             learnings visitedUrls)
                 serpQueries)
          with
          | Resolved results => Resolved (mergeResults results)
          | Rejected e => Rejected e
          | Pending => Pending
          end
      end
  end.

(** The per-task results of one invocation. *)
Definition taskResults (fuel : nat) (here : position)
    (breadth depth : Z) (learnings visitedUrls : list string)
    (serpQueries : list SerpQuery) : list (promise ResearchResult) :=
  map_from 0
    (branchTask (deepResearch fuel) here breadth depth learnings visitedUrls)
    serpQueries.

End Orchestrator.


(** Sample collaborators, used to run the definitions.  The generation
    service answers with three queries at the root, fails for the
    invocation made by the first branch, and answers with one query
    everywhere else. *)
Definition sampleTrim (s : string) (contextSize : Z) : string :=
  match trimPrompt unitTokens sliceSplitter (S (String.length s)) s contextSize with
  | Some r => r
  | None => ""
  end.

Definition sampleGenerate (here : position) (topic : string) (numQueries : Z)
    (known : list string) : settled (list SerpQuery) :=
  match here with
  | [] =>
      Fulfilled
        [ {| query := "solid state batteries"; researchGoal := "energy density" |};
          {| query := "sodium ion batteries"; researchGoal := "cost per kWh" |};
          {| query := "lithium supply"; researchGoal := "mining capacity" |} ]
  | [O] => Failed (mkError (Some "No object generated: response did not match schema."))
  | _ => Fulfilled [ {| query := "cell lifetime"; researchGoal := "cycle count" |} ]
  end.

Definition sampleSearch (here : position) (q : string) : settled SearchResponse :=
  Fulfilled
    {| data := [ {| url := Some ("https://example.org/" ++ q); markdown := Some "text" |};
                 {| url := None; markdown := None |} ] |}.

Definition sampleFindings (here : position) (q : string) (contents : list string)
    (numLearnings numFollowUpQuestions : Z) : settled Findings :=
  Fulfilled {| newLearnings := ["about " ++ q; "batteries store energy"];
               followUpQuestions := ["what next?"] |}.


(** ** The limiter: [const limit = pLimit(ConcurrencyLimit)]

    The statement sits in the body of [deepResearch], so every
    invocation makes a limiter of its own and hands its branch tasks to
    it.  A task is waiting in the queue of its limiter, active (holding
    one of its slots), or done.  An active task that has reached
    [return deepResearch(...)] carries the tasks of the invocation it
    waits for; they belong to the limiter made by that invocation. *)
Local Unset Elimination Schemes.
Inductive task : Type :=
| Queued
| Active (child : option (list task))
| Done (child : option (list task)).
Local Set Elimination Schemes.

(** Slots of one limiter in use: the active tasks among its own. *)
Fixpoint running (ts : list task) : nat :=
  match ts with
  | [] => O
  | Active _ :: ts' => S (running ts')
  | _ :: ts' => running ts'
  end.

(** Branch tasks in flight in a whole tree of invocations. *)
Fixpoint in_flight_task (t : task) : nat :=
  let below (c : option (list task)) :=
    match c with
    | None => O
    | Some ts => list_sum (map in_flight_task ts)
    end in
  match t with
  | Queued => O
  | Active c => S (below c)
  | Done c => below c
  end.

Definition in_flight (ts : list task) : nat :=
  list_sum (map in_flight_task ts).

(** Branch tasks at work on their own search and extraction (active,
    and not waiting for an invocation they have called). *)
Fixpoint busy_task (t : task) : nat :=
  let below (c : option (list task)) :=
    match c with
    | None => O
    | Some ts => list_sum (map busy_task ts)
    end in
  match t with
  | Queued => O
  | Active None => 1%nat
  | Active c => below c
  | Done c => below c
  end.

Definition busy (ts : list task) : nat := list_sum (map busy_task ts).

Definition is_queued (t : task) : bool :=
  match t with Queued => true | _ => false end.

Section Limiter.

(** The size of every limiter. *)
Variable K : nat.

(** One scheduling step on the tasks of a limiter. *)
Inductive step : list task -> list task -> Prop :=
| step_start : forall before after,
    (* p-limit starts the oldest queued function when a slot is free *)
    forallb (fun t => negb (is_queued t)) before = true ->
    (running before + running after < K)%nat ->
    step (before ++ Queued :: after) (before ++ Active None :: after)
| step_recurse : forall before after n,
    (* the task calls deepResearch, which makes a limiter and hands
       it one task per generated query *)
    step (before ++ Active None :: after)
         (before ++ Active (Some (repeat Queued n)) :: after)
| step_settle : forall before after c,
    (* the promise of the task settles (with the invocation it waits
       for, or as soon as that invocation is rejected) and its slot is
       released *)
    step (before ++ Active c :: after) (before ++ Done c :: after)
| step_below_active : forall before after ts ts',
    step ts ts' ->
    step (before ++ Active (Some ts) :: after)
         (before ++ Active (Some ts') :: after)
| step_below_done : forall before after ts ts',
    step ts ts' ->
    step (before ++ Done (Some ts) :: after)
         (before ++ Done (Some ts') :: after).

Inductive steps : list task -> list task -> Prop :=
| steps_refl : forall ts, steps ts ts
| steps_step : forall ts1 ts2 ts3,
    step ts1 ts2 -> steps ts2 ts3 -> steps ts1 ts3.

(** Every limiter of the tree has at most [K] slots in use. *)
Fixpoint task_within (t : task) : bool :=
  let below (c : option (list task)) :=
    match c with
    | None => true
    | Some ts => (running ts <=? K)%nat && forallb task_within ts
    end in
  match t with
  | Queued => true
  | Active c => below c
  | Done c => below c
  end.

Definition limiter_within (ts : list task) : bool :=
  (running ts <=? K)%nat && forallb task_within ts.

End Limiter.

(** The limiters of a tree of invocations: the one at the root, and
    those made by the invocations that tasks have called. *)
Inductive limiter_in : list task -> list task -> Prop :=
| limiter_root : forall ts, limiter_in ts ts
| limiter_of_active : forall ts below l,
    In (Active (Some below)) ts -> limiter_in below l -> limiter_in ts l
| limiter_of_done : forall ts below l,
    In (Done (Some below)) ts -> limiter_in below l -> limiter_in ts l.

(** ** Further definitions: the wrapper seen from its callers *)

(** The delay the wrapper sleeps after invocation [k] has failed, read
    off the catch block: computed from the message of that failure. *)
Definition delayOf {T : Type} (ceilMillis : string -> Z) (fn : nat -> settled T)
    (initialRetryDelay : Z) (k : nat) : Z :=
  match fn k with
  | Failed error =>
      waitTimeOf ceilMillis initialRetryDelay (Z.of_nat k)
                 (nullish (message error) "")
  | Fulfilled _ => 0
  end.

(** The sum of the delays of a run. *)
Definition total (delays : list Z) : Z := fold_right Z.add 0 delays.

(** [wrapped.doGenerate] of providers.ts: the provider's own
    [doGenerate], behind [withExponentialBackoff] with no options; the
    [catch] of the wrapper rethrows what it caught. *)
Definition doGenerate {T : Type} (ceilMillis : string -> Z)
    (originalDoGenerate : nat -> settled T) : Run T :=
  withExponentialBackoff ceilMillis originalDoGenerate noOptions.

Definition all_digits (s : string) : bool :=
  forallb is_digit (list_ascii_of_string s).

(** What a run looks like when it leaves the loop at or after
    invocation [a], having slept [slept] before. *)
Definition left_loop {T : Type} (ceilMillis : string -> Z)
    (fn : nat -> settled T) (n d : Z) (a : nat) (slept : list Z) (r : Run T)
    : Prop :=
  (a < calls r)%nat
  /\ sleeps r = (slept ++ map (delayOf ceilMillis fn d) (seq a (calls r - a - 1)))%list
  /\ (forall k, (a <= k < calls r - 1)%nat ->
                exists e, fn k = Failed e /\ isRateLimit e = true)
  /\ match outcome r with
     | inl v => fn (calls r - 1)%nat = Fulfilled v
     | inr ThrownNull => False
     | inr (ThrownError e) =>
         (fn (calls r - 1)%nat = Failed e /\ isRateLimit e = false)
         \/ (calls r = Z.to_nat n
             /\ exists e0, fn (calls r - 1)%nat = Failed e0
                           /\ isRateLimit e0 = true
                           /\ e = exhausted n e0)
     end.

(** ** Further definitions: rejections that are not error objects

    A promise can be rejected with any value.  The catch block of
    [withExponentialBackoff] reads [error.message] before anything
    else, so what it does depends on whether the value is [null] or
    [undefined], and on what its [message] is; so does the catch block
    of [deepResearch].  The module below is the loop and the
    orchestrator again, over such values; on error objects they do what
    [attempts] and [deepResearch] above do. *)

Module AnyRejection.

(** [error.message], as far as the catch blocks tell values apart:
    absent ([undefined] or [null]), a string, or something else, which
    has no [toLowerCase] method (a number, a boolean, an array, a plain
    object).  Of such a value the catch block of [deepResearch] asks
    whether it is truthy and, if so, calls its [includes] method. *)
Inductive messageValue : Type :=
| MessageAbsent
| MessageString (m : string)
| MessageOther (truthy hasIncludes : bool).

(** The value a promise is rejected with: [null] or [undefined], or
    any other value, with its [message]. *)
Inductive rejection : Type :=
| RejectNullish
| RejectValue (message : messageValue).

Inductive settled (A : Type) : Type :=
| Fulfilled (value : A)
| Failed (error : rejection).
Arguments Fulfilled {A} value.
Arguments Failed {A} error.

(** What the wrapper can throw: the initial [lastError], [null]; the
    value it caught; the [TypeError] that reading [message] of
    [null] or [undefined], or calling a [toLowerCase] that is not
    there, raises inside the catch block; the error it makes itself. *)
Inductive thrown : Type :=
| ThrownNull
| ThrownValue (error : rejection)
| ThrownTypeError
| ThrownError (error : Error).

Record Run (T : Type) : Type := mkRun {
  outcome : T + thrown;
  calls : nat;
  sleeps : list Z
}.
Arguments mkRun {T} outcome calls sleeps.
Arguments outcome {T} r.
Arguments calls {T} r.
Arguments sleeps {T} r.

Section Backoff.

Variable T : Type.
Variable ceilMillis : string -> Z.
Variable fn : nat -> settled T.

Fixpoint attempts (maxRetries initialRetryDelay : Z) (remaining : nat)
    (attempt : nat) (lastError : thrown) (slept : list Z) : Run T :=
  match remaining with
  | O => mkRun (inr lastError) attempt slept
  | S remaining' =>
      match fn attempt with
      | Fulfilled v => mkRun (inl v) (S attempt) slept
      | Failed error =>
          (* !error.message?.toLowerCase().includes('rate limit') *)
          match error with
          | RejectNullish =>
              mkRun (inr ThrownTypeError) (S attempt) slept
          | RejectValue (MessageOther _ _) =>
              mkRun (inr ThrownTypeError) (S attempt) slept
          | RejectValue MessageAbsent =>
              mkRun (inr (ThrownValue error)) (S attempt) slept
          | RejectValue (MessageString m) =>
              if negb (includes (toLowerCase m) "rate limit")
              then mkRun (inr (ThrownValue error)) (S attempt) slept
              else if Z.of_nat attempt =? maxRetries - 1
              then mkRun (inr (ThrownError
                                 (exhausted maxRetries (mkError (Some m)))))
                         (S attempt) slept
              else
                let waitTime :=
                  waitTimeOf ceilMillis initialRetryDelay (Z.of_nat attempt) m in
                attempts maxRetries initialRetryDelay remaining' (S attempt)
                         (ThrownValue error) (slept ++ [waitTime])
          end
      end
  end.

Definition withExponentialBackoff (options : RetryOptions) : Run T :=
  let maxRetries := nullish (maxRetries options) MaxRetries in
  let initialRetryDelay :=
    nullish (initialRetryDelay options) InitialRetryDelay in
  attempts maxRetries initialRetryDelay (Z.to_nat maxRetries) 0
           ThrownNull [].

End Backoff.

Arguments attempts {T} ceilMillis fn maxRetries initialRetryDelay
  remaining attempt lastError slept.
Arguments withExponentialBackoff {T} ceilMillis fn options.

(** A failure with a rate-limit message. *)
Definition rateLimited {T : Type} (fn : nat -> settled T) (k : nat)
    (m : string) : Prop :=
  fn k = Failed (RejectValue (MessageString m))
  /\ includes (toLowerCase m) "rate limit" = true.

(** How a run that made [c] invocations can have ended, [n] being the
    number of attempts allowed. *)
Definition ended {T : Type} (fn : nat -> settled T) (n : Z) (c : nat)
    (o : T + thrown) : Prop :=
  match o with
  | inl v => fn (c - 1)%nat = Fulfilled v
  | inr ThrownNull => False
  | inr (ThrownValue x) =>
      fn (c - 1)%nat = Failed x
      /\ (x = RejectValue MessageAbsent
          \/ exists m, x = RejectValue (MessageString m)
                       /\ includes (toLowerCase m) "rate limit" = false)
  | inr ThrownTypeError =>
      fn (c - 1)%nat = Failed RejectNullish
      \/ exists truthy hasIncludes,
           fn (c - 1)%nat
           = Failed (RejectValue (MessageOther truthy hasIncludes))
  | inr (ThrownError e) =>
      c = Z.to_nat n
      /\ exists m, rateLimited fn (c - 1)%nat m
                   /\ e = exhausted n (mkError (Some m))
  end.

(** *** [deepResearch] over rejection values

    The catch block of [deepResearch] (lines 318 to 333) evaluates
    [e.message && e.message.includes('Timeout')] before it returns the
    empty result.  Reading [message] of [null] or [undefined] throws a
    [TypeError], and so does calling [includes] on a truthy message
    that has no such method; thrown from inside the catch block, the
    [TypeError] rejects the task. *)
Definition unreadable (e : rejection) : bool :=
  match e with
  | RejectNullish => true
  | RejectValue (MessageOther truthy hasIncludes) => truthy && negb hasIncludes
  | RejectValue _ => false
  end.

(** What a task or an invocation is rejected with: a rejection value
    passed on as it is, or the [TypeError] of a catch block. *)
Inductive raised : Type :=
| Raised (error : rejection)
| RaisedTypeError.

Inductive promise (A : Type) : Type :=
| Resolved (value : A)
| Rejected (error : raised)
| Pending.
Arguments Resolved {A} value.
Arguments Rejected {A} error.
Arguments Pending {A}.

Fixpoint promise_all {A : Type} (ps : list (promise A)) : promise (list A) :=
  match ps with
  | [] => Resolved []
  | Resolved v :: ps' =>
      match promise_all ps' with
      | Resolved vs => Resolved (v :: vs)
      | Rejected e => Rejected e
      | Pending => Pending
      end
  | Rejected e :: _ => Rejected e
  | Pending :: _ => Pending
  end.

(** The catch block. *)
Definition caught (e : rejection) : promise ResearchResult :=
  if unreadable e then Rejected RaisedTypeError else Resolved emptyResult.

(** One invocation of [deepResearch]: where it is in the tree, and its
    arguments. *)
Record invocation : Type := mkInvocation {
  place : position;
  ofQuery : string;
  ofBreadth : Z;
  ofDepth : Z;
  priorLearnings : list string;
  priorUrls : list string
}.

Section Research.

Variable generateQueries :
  position -> string -> Z -> list string -> settled (list SerpQuery).
Variable search : position -> string -> settled SearchResponse.
Variable generateFindings :
  position -> string -> list string -> Z -> Z -> settled Findings.
Variable trimPrompt_ : string -> Z -> string.

Definition generateSerpQueries (here : position) (query : string)
    (numQueries : Z) (learnings : list string) : settled (list SerpQuery) :=
  match generateQueries here query numQueries learnings with
  | Fulfilled queries => Fulfilled (array_slice0 numQueries queries)
  | Failed e => Failed e
  end.

Definition processSerpResult (here : position) (query : string)
    (result : SearchResponse) (numLearnings numFollowUpQuestions : Z)
    : settled Findings :=
  let contents :=
    map (fun content => trimPrompt_ content 25000)
        (compact (map markdown (data result))) in
  generateFindings here query contents numLearnings numFollowUpQuestions.

Definition branchTask
    (recurse : position -> string -> Z -> Z -> list string -> list string
               -> promise ResearchResult)
    (here : position) (breadth depth : Z)
    (learnings visitedUrls : list string)
    (i : nat) (serpQuery : SerpQuery) : promise ResearchResult :=
  let branch := (here ++ [i])%list in
  (* try { *)
  match search branch (query serpQuery) with
  | Failed e => caught e                                   (* catch *)
  | Fulfilled result =>
      let newUrls := compact (map url (data result)) in
      let newBreadth := halve_up breadth in
      let newDepth := depth - 1 in
      match processSerpResult branch (query serpQuery) result 3 newBreadth with
      | Failed e => caught e                               (* catch *)
      | Fulfilled found =>
          let allLearnings := (learnings ++ newLearnings found)%list in
          let allUrls := (visitedUrls ++ newUrls)%list in
          if newDepth >? 0
          then
            recurse branch (nextQueryOf serpQuery found)
                    newBreadth newDepth allLearnings allUrls
          else
            Resolved {| learnings := allLearnings; visitedUrls := allUrls |}
      end
  end.

Fixpoint deepResearch (fuel : nat) (here : position) (query : string)
    (breadth depth : Z) (learnings visitedUrls : list string)
    : promise ResearchResult :=
  match fuel with
  | O => Pending
  | S fuel' =>
      match generateSerpQueries here query breadth learnings with
      | Failed e => Rejected (Raised e)
      | Fulfilled serpQueries =>
          match
            promise_all
              (map_from 0
                 (branchTask (deepResearch fuel') here breadth depth
                             learnings visitedUrls)
                 serpQueries)
          with
          | Resolved results => Resolved (mergeResults results)
          | Rejected e => Rejected e
          | Pending => Pending
          end
      end
  end.

(** The [i]-th branch task of an invocation is run on [serpQuery]. *)
Definition runs (c : invocation) (i : nat) (serpQuery : SerpQuery) : Prop :=
  exists serpQueries,
    generateSerpQueries (place c) (ofQuery c) (ofBreadth c) (priorLearnings c)
    = Fulfilled serpQueries
    /\ nth_error serpQueries i = Some serpQuery.

(** The invocation made by the [i]-th branch task of [c], once its
    search has given [result] and its extraction [found]. *)
Definition below (c : invocation) (i : nat) (serpQuery : SerpQuery)
    (result : SearchResponse) (found : Findings) : invocation :=
  {| place := (place c ++ [i])%list;
     ofQuery := nextQueryOf serpQuery found;
     ofBreadth := halve_up (ofBreadth c);
     ofDepth := ofDepth c - 1;
     priorLearnings := (priorLearnings c ++ newLearnings found)%list;
     priorUrls := (priorUrls c ++ compact (map url (data result)))%list |}.

(** The invocations a run makes: the first, and those made by the
    branch tasks that get through their search and their extraction
    with depth to spare. *)
Inductive makes (c : invocation) : invocation -> Prop :=
| makes_itself : makes c c
| makes_below : forall i serpQuery result found c',
    runs c i serpQuery ->
    search (place c ++ [i])%list (query serpQuery) = Fulfilled result ->
    processSerpResult (place c ++ [i])%list (query serpQuery) result 3
      (halve_up (ofBreadth c)) = Fulfilled found ->
    ofDepth c - 1 > 0 ->
    makes (below c i serpQuery result found) c' ->
    makes c c'.

(** Why an invocation was rejected with [x]: its own query generation
    failed with that value, or the catch block of one of its branch
    tasks threw over a rejection of the search or of the extraction. *)
Definition rejects (c : invocation) (x : raised) : Prop :=
  match x with
  | Raised e =>
      generateQueries (place c) (ofQuery c) (ofBreadth c) (priorLearnings c)
      = Failed e
  | RaisedTypeError =>
      exists i serpQuery,
        runs c i serpQuery
        /\ ((exists e,
               search (place c ++ [i])%list (query serpQuery) = Failed e
               /\ unreadable e = true)
            \/ (exists result e,
                  search (place c ++ [i])%list (query serpQuery)
                  = Fulfilled result
                  /\ processSerpResult (place c ++ [i])%list
                       (query serpQuery) result 3 (halve_up (ofBreadth c))
                     = Failed e
                  /\ unreadable e = true))
  end.

End Research.

End AnyRejection.

(** An error object as a rejection value, and a run over error objects
    as a run over rejection values: what was rethrown and what was made
    by the wrapper are both error objects. *)
Definition ofError (e : Error) : AnyRejection.rejection :=
  AnyRejection.RejectValue
    match message e with
    | Some m => AnyRejection.MessageString m
    | None => AnyRejection.MessageAbsent
    end.

Definition ofSettled {A : Type} (s : settled A) : AnyRejection.settled A :=
  match s with
  | Fulfilled v => AnyRejection.Fulfilled v
  | Failed e => AnyRejection.Failed (ofError e)
  end.

Definition asError (t : AnyRejection.thrown) : option thrown :=
  match t with
  | AnyRejection.ThrownNull => Some ThrownNull
  | AnyRejection.ThrownValue
      (AnyRejection.RejectValue (AnyRejection.MessageString m)) =>
      Some (ThrownError (mkError (Some m)))
  | AnyRejection.ThrownValue
      (AnyRejection.RejectValue AnyRejection.MessageAbsent) =>
      Some (ThrownError (mkError None))
  | AnyRejection.ThrownError e => Some (ThrownError e)
  | _ => None
  end.

Definition asRun {T : Type} (r : AnyRejection.Run T) : option (Run T) :=
  match AnyRejection.outcome r with
  | inl v =>
      Some (mkRun (inl v) (AnyRejection.calls r) (AnyRejection.sleeps r))
  | inr t =>
      match asError t with
      | Some t' =>
          Some (mkRun (inr t') (AnyRejection.calls r) (AnyRejection.sleeps r))
      | None => None
      end
  end.

Definition ofPromise {A : Type} (p : promise A) : AnyRejection.promise A :=
  match p with
  | Resolved v => AnyRejection.Resolved v
  | Rejected e => AnyRejection.Rejected (AnyRejection.Raised (ofError e))
  | Pending => AnyRejection.Pending
  end.

(** The sample collaborators over rejection values; the search of the
    second branch of the root is rejected with [null]. *)
Definition sampleGenerateAny (here : position) (topic : string)
    (numQueries : Z) (known : list string)
    : AnyRejection.settled (list SerpQuery) :=
  ofSettled (sampleGenerate here topic numQueries known).

Definition sampleSearchAny (here : position) (q : string)
    : AnyRejection.settled SearchResponse :=
  match here with
  | [1%nat] => AnyRejection.Failed AnyRejection.RejectNullish
  | _ => ofSettled (sampleSearch here q)
  end.

Definition sampleFindingsAny (here : position) (q : string)
    (contents : list string) (numLearnings numFollowUpQuestions : Z)
    : AnyRejection.settled Findings :=
  ofSettled (sampleFindings here q contents numLearnings numFollowUpQuestions).

(** ** Further definitions: [trimPrompt] in its callers *)

(** [trimPrompt] as its callers use it, with the number of activations
    that a text of that length can need. *)
Definition trimPromptOf {token : Type} (encode : string -> list token)
    (splitText : Z -> string -> list string)
    (prompt : string) (contextSize : Z) : string :=
  match trimPrompt encode splitText (S (String.length prompt)) prompt contextSize with
  | Some result => result
  | None => ""
  end.

(** A document that [compact] keeps: its markdown is there and is not
    the empty string. *)
Definition hasMarkdown (item : SearchItem) : bool :=
  match markdown item with
  | Some text => negb (is_empty text)
  | None => false
  end.

(** The first statement of [processSerpResult]: the contents handed to
    the text-generation service. *)
Definition serpContents (trimPrompt_ : string -> Z -> string)
    (result : SearchResponse) : list string :=
  map (fun content => trimPrompt_ content 25000)
      (compact (map markdown (data result))).

(** A splitter whose first chunk is the beginning of the text. *)
Definition splitter_prefix (splitText : Z -> string -> list string) : Prop :=
  forall (chunkSize : Z) (text : string),
    prefix (hd "" (splitText chunkSize text)) text = true.

(** [writeFinalReport]: the learnings, tagged and joined, are trimmed
    to 150000 tokens; the report of the text-generation service is
    followed by the list of sources. *)
Definition newline : string := String (ascii_of_nat 10) EmptyString.

Definition learningsStringOf (trimPrompt_ : string -> Z -> string)
    (learnings : list string) : string :=
  trimPrompt_
    (String.concat newline
       (map (fun learning => "<learning>" ++ newline ++ learning
                             ++ newline ++ "</learning>")
            learnings))
    150000.

Definition urlsSection (visitedUrls : list string) : string :=
  newline ++ newline ++ "## Sources" ++ newline ++ newline
  ++ String.concat newline (map (fun url => "- " ++ url) visitedUrls).

Definition writeFinalReport
    (generateReport : string -> string -> settled string)
    (trimPrompt_ : string -> Z -> string)
    (prompt : string) (learnings visitedUrls : list string) : settled string :=
  match generateReport prompt (learningsStringOf trimPrompt_ learnings) with
  | Fulfilled reportMarkdown =>
      Fulfilled (reportMarkdown ++ urlsSection visitedUrls)
  | Failed e => Failed e
  end.

(** ** Further definitions: where results come from *)

(** [x] is a learning of some extraction the service has answered. *)
Definition learned
    (generateFindings :
       position -> string -> list string -> Z -> Z -> settled Findings)
    (x : string) : Prop :=
  exists here q contents numLearnings numFollowUpQuestions found,
    generateFindings here q contents numLearnings numFollowUpQuestions
    = Fulfilled found
    /\ In x (newLearnings found).

(** [u] is the URL of a document of some search response. *)
Definition searched (search : position -> string -> settled SearchResponse)
    (u : string) : Prop :=
  exists here q response item,
    search here q = Fulfilled response
    /\ In item (data response)
    /\ url item = Some u.

(** A result that carries the given learnings and URLs, or nothing. *)
Definition carries_or_empty (priorLearnings priorUrls : list string)
    (r : ResearchResult) : Prop :=
  (learnings r = [] /\ visitedUrls r = [])
  \/ (incl priorLearnings (learnings r) /\ incl priorUrls (visitedUrls r)).

(** The result of the sample run of breadth 2 and depth 1 that starts
    from one known learning and one visited URL. *)
Definition sampleResult : ResearchResult :=
  {| learnings := ["known"; "about solid state batteries";
                   "batteries store energy"; "about sodium ion batteries"];
     visitedUrls := ["https://example.org/seen";
                     "https://example.org/solid state batteries";
                     "https://example.org/sodium ion batteries"] |}.

(* ================================================================= *)
(** * Part II: properties *)
(* ================================================================= *)

(** ** Strings *)

Lemma length_take (n : nat) (s : string) :
  String.length (take n s) = Nat.min n (String.length s).
Proof.
  revert s; induction n as [|n IH]; intros [|c s]; simpl; auto.
Qed.

Lemma take_all (n : nat) (s : string) :
  (String.length s <= n)%nat -> take n s = s.
Proof.
  revert s; induction n as [|n IH]; intros [|c s] H; simpl in *;
    try reflexivity; try lia.
  f_equal. apply IH. lia.
Qed.

Lemma length_slice0 (e : Z) (s : string) :
  0 <= e -> Z.of_nat (String.length (slice0 e s)) = Z.min e (Z.of_nat (String.length s)).
Proof.
  intros He. unfold slice0.
  destruct (Z.ltb_spec e 0); [lia|].
  rewrite length_take. lia.
Qed.

Lemma is_empty_true (s : string) : is_empty s = true <-> s = "".
Proof. destruct s; simpl; split; congruence. Qed.

Lemma is_empty_false (s : string) : is_empty s = false <-> s <> "".
Proof. destruct s; simpl; split; congruence. Qed.

Lemma is_empty_length (s : string) :
  is_empty s = false <-> (0 < String.length s)%nat.
Proof. destruct s; simpl; split; intros; try congruence; lia. Qed.

Lemma length_trimStart (s : string) :
  (String.length (trimStart s) <= String.length s)%nat.
Proof.
  induction s as [|c s IH]; simpl; [lia|].
  destruct (is_white c); simpl; lia.
Qed.

Lemma length_trimEnd (s : string) :
  (String.length (trimEnd s) <= String.length s)%nat.
Proof.
  induction s as [|c s IH]; simpl; [lia|].
  destruct (trimEnd s) eqn:E; [destruct (is_white c)|]; simpl in *; lia.
Qed.

Lemma length_js_trim (s : string) :
  (String.length (js_trim s) <= String.length s)%nat.
Proof.
  unfold js_trim.
  pose proof (length_trimEnd (trimStart s)).
  pose proof (length_trimStart s). lia.
Qed.

(** ** [trimPrompt] *)

Section TrimPromptFacts.

Variable token : Type.
Variable encode : string -> list token.
Variable splitText : Z -> string -> list string.

Local Abbreviation body := (trimPrompt_body encode splitText).
Local Abbreviation trimPrompt' := (trimPrompt encode splitText).
Local Abbreviation tokens := (tokenCount encode).

(** The three ways an activation returns. *)
Lemma body_return (p : string) (c : Z) (r : string) :
  body p c = Return r ->
  (p = "" /\ r = "")
  \/ (p <> "" /\ tokens p <= c /\ r = p)
  \/ (p <> "" /\ c < tokens p /\ chunkSizeOf encode p c < MinChunkSize
      /\ r = slice0 MinChunkSize p).
Proof.
  unfold trimPrompt_body, chunkSizeOf. cbv zeta.
  destruct (is_empty p) eqn:Ep.
  - intros [= <-]. left. split; [now apply is_empty_true|reflexivity].
  - apply is_empty_false in Ep.
    destruct (Z.leb_spec (tokens p) c).
    + intros [= <-]. right; left. auto.
    + destruct (Z.ltb_spec
                  (Z.of_nat (String.length p) - (tokens p - c) * 3)
                  MinChunkSize).
      * intros [= <-]. right; right. auto.
      * destruct (_ =? _)%nat; discriminate.
Qed.

(** The two ways an activation calls itself. *)
Lemma body_recurse (p : string) (c : Z) (q : string) :
  body p c = Recurse q ->
  let chunkSize := chunkSizeOf encode p c in
  let chunk := hd "" (splitText chunkSize p) in
  p <> "" /\ c < tokens p /\ MinChunkSize <= chunkSize
  /\ ((String.length chunk = String.length p /\ q = slice0 chunkSize p)
      \/ (String.length chunk <> String.length p /\ q = chunk)).
Proof.
  unfold trimPrompt_body, chunkSizeOf. cbv zeta.
  destruct (is_empty p) eqn:Ep; [discriminate|].
  apply is_empty_false in Ep.
  destruct (Z.leb_spec (tokens p) c); [discriminate|].
  destruct (Z.ltb_spec
              (Z.of_nat (String.length p) - (tokens p - c) * 3)
              MinChunkSize); [discriminate|].
  destruct (Nat.eqb_spec
              (String.length
                 (hd "" (splitText
                    (Z.of_nat (String.length p) - (tokens p - c) * 3) p)))
              (String.length p));
    intros [= <-]; simpl; auto 6.
Qed.

(** The hard cut of the fallback is strictly shorter than the text,
    whatever the splitter does. *)
Lemma hard_cut_shorter (p : string) (c : Z) :
  c < tokens p -> MinChunkSize <= chunkSizeOf encode p c ->
  (String.length (slice0 (chunkSizeOf encode p c) p) < String.length p)%nat.
Proof.
  intros Hc Hm.
  assert (Hlen := length_slice0 (chunkSizeOf encode p c) p).
  unfold MinChunkSize in *.
  assert (chunkSizeOf encode p c <= Z.of_nat (String.length p) - 3)
    by (unfold chunkSizeOf in *; lia).
  lia.
Qed.

Lemma trimPrompt_more_fuel (f f' : nat) (p : string) (c : Z) (r : string) :
  (f <= f')%nat -> trimPrompt' f p c = Some r -> trimPrompt' f' p c = Some r.
Proof.
  revert f' p; induction f as [|f IH]; intros f' p Hle H; simpl in H;
    [discriminate|].
  destruct f' as [|f']; [lia|]. simpl.
  destruct (body p c); [assumption|].
  apply IH; [lia|assumption].
Qed.

(** What a call returns is what the activation it ends in returns. *)
Lemma trimPrompt_visits (f : nat) (p : string) (c : Z) (r : string) :
  trimPrompt' f p c = Some r ->
  exists q, visits encode splitText c p q /\ body q c = Return r.
Proof.
  revert p; induction f as [|f IH]; intros p H; simpl in H; [discriminate|].
  destruct (body p c) as [r'|p'] eqn:E.
  - inversion H; subst. exists p. split; [constructor|assumption].
  - destruct (IH _ H) as (q & Hv & Hq).
    exists q. split; [econstructor; eassumption|assumption].
Qed.

(** A returned text is returned unchanged when trimmed again, by the
    very first activation. *)
Lemma body_return_fixed (p : string) (c : Z) (r : string) :
  body p c = Return r -> body r c = Return r.
Proof.
  intros H.
  destruct (body_return _ _ _ H)
    as [[-> ->]|[(Hp & Ht & ->)|(Hp & Ht & Hk & ->)]];
    try assumption; try reflexivity.
  unfold trimPrompt_body.
  destruct (is_empty (slice0 MinChunkSize p)) eqn:Ee.
  - apply is_empty_true in Ee. now rewrite Ee.
  - destruct (Z.leb_spec (tokens (slice0 MinChunkSize p)) c);
      [reflexivity|].
    assert (Hl := length_slice0 MinChunkSize p).
    unfold MinChunkSize in *.
    destruct (Z.ltb_spec
      (Z.of_nat (String.length (slice0 140 p))
       - (tokens (slice0 140 p) - c) * 3) 140) as [_|Hge]; [|lia].
    f_equal. unfold slice0 at 1. simpl (140 <? 0).
    cbv iota. apply take_all. lia.
Qed.

Section Bounded.

Hypothesis splitText_bounded : splitter_bounded splitText.

Lemma body_recurse_shorter (p : string) (c : Z) (q : string) :
  body p c = Recurse q -> (String.length q < String.length p)%nat.
Proof.
  intros H. destruct (body_recurse _ _ _ H) as (Hp & Ht & Hm & Hq).
  destruct Hq as [[_ ->]|[Hne ->]].
  - now apply hard_cut_shorter.
  - assert (chunkSizeOf encode p c <= Z.of_nat (String.length p))
      by (unfold chunkSizeOf; lia).
    pose proof (splitText_bounded (chunkSizeOf encode p c) p
                  (conj Hm H0)).
    lia.
Qed.

Lemma trimPrompt_enough_fuel (f : nat) (p : string) (c : Z) :
  (String.length p < f)%nat -> exists r, trimPrompt' f p c = Some r.
Proof.
  revert p; induction f as [|f IH]; intros p Hf; [lia|]. simpl.
  destruct (body p c) as [r|q] eqn:E; [eauto|].
  apply IH. apply body_recurse_shorter in E. lia.
Qed.

Lemma visits_not_longer (c : Z) (p q : string) :
  visits encode splitText c p q -> (String.length q <= String.length p)%nat.
Proof.
  induction 1 as [|p q r E _ IH]; [lia|].
  apply body_recurse_shorter in E. lia.
Qed.

End Bounded.

End TrimPromptFacts.

(** *** Raw character slicing respects the bound *)

Lemma slices_first (f n : nat) (s : string) :
  (String.length (hd "" (slices f n s)) <= String.length s)%nat.
Proof.
  destruct f as [|f]; simpl; [lia|].
  destruct (is_empty s); simpl; [lia|].
  rewrite length_take. lia.
Qed.

Lemma slices_chunks (f n : nat) (s chunk : string) :
  In chunk (slices f n s) -> (String.length chunk <= n)%nat.
Proof.
  revert s; induction f as [|f IH]; intros s; simpl; [tauto|].
  destruct (is_empty s); simpl; [tauto|].
  intros [<-|H]; [rewrite length_take; lia|eauto].
Qed.

Lemma sliceSplitter_bounded : splitter_bounded sliceSplitter.
Proof. intros n t _. apply slices_first. Qed.

(** The specification's wording implies the bound that is used. *)
Lemma within_chunkSize_bounded (splitText : Z -> string -> list string) :
  splitter_within_chunkSize splitText -> splitter_bounded splitText.
Proof.
  intros H n t [_ Hn].
  destruct (splitText n t) as [|chunk l] eqn:E; simpl; [lia|].
  specialize (H n t chunk). rewrite E in H.
  specialize (H (or_introl eq_refl)). lia.
Qed.

(** *** Non-empty output *)






(** What the hypothesis on empty chunks is for: with
    [splitText(prompt)[0] ?? ""] a missing first chunk becomes the empty
    string, which the next activation returns.  A splitter with no
    chunk for a non-empty text would therefore give an empty output. *)
Lemma trimPrompt_no_first_chunk {token : Type} (encode : string -> list token)
    (splitText : Z -> string -> list string) (text : string) (budget : Z) :
  text <> "" ->
  budget < tokenCount encode text ->
  MinChunkSize <= chunkSizeOf encode text budget ->
  splitText (chunkSizeOf encode text budget) text = [] ->
  trimPrompt encode splitText 2 text budget = Some "".
Proof.
  intros Hne Hover Hfloor Hnone. simpl.
  unfold trimPrompt_body. cbv zeta.
  apply is_empty_false in Hne. rewrite Hne.
  destruct (Z.leb_spec (tokenCount encode text) budget); [lia|].
  fold (chunkSizeOf encode text budget).
  destruct (Z.ltb_spec (chunkSizeOf encode text budget) MinChunkSize); [lia|].
  rewrite Hnone. simpl hd.
  apply is_empty_length in Hne.
  destruct (Nat.eqb_spec (String.length "") (String.length text)) as [E|_];
    [simpl in E; lia|].
  reflexivity.
Qed.

(** C6.  [trimPrompt] is idempotent: trimming its own output again
    returns that output; the empty text maps to the empty text and a
    text at or under the budget is returned unchanged. *)
Theorem trimPrompt_idempotent {token : Type} (encode : string -> list token)
    (splitText : Z -> string -> list string) :
  splitter_bounded splitText ->
  forall (text : string) (budget : Z),
  exists r,
    trimPrompt encode splitText (S (String.length text)) text budget = Some r
    /\ trimPrompt encode splitText (S (String.length r)) r budget = Some r
    /\ (text = "" -> r = "")
    /\ (tokenCount encode text <= budget -> r = text).
Proof.
  intros Hb text budget.
  destruct (trimPrompt_enough_fuel _ encode splitText Hb
              (S (String.length text)) text budget) as [r Hr]; [lia|].
  exists r. split; [assumption|].
  split; [|split].
  - destruct (trimPrompt_visits _ _ _ _ _ _ _ Hr) as (q & _ & Hq).
    apply body_return_fixed in Hq. simpl. now rewrite Hq.
  - intros ->. simpl in Hr. now inversion Hr.
  - intros Hle. simpl in Hr. unfold trimPrompt_body in Hr.
    destruct (is_empty text) eqn:E.
    + apply is_empty_true in E. subst. now inversion Hr.
    + cbv zeta in Hr.
      destruct (Z.leb_spec (tokenCount encode text) budget); [|lia].
      now inversion Hr.
Qed.

Lemma trimPrompt_idempotent_witness :
  splitter_bounded sliceSplitter
  /\ exists r,
       trimPrompt unitTokens sliceSplitter
         (S (String.length (replicate 300 "a"))) (replicate 300 "a") 250
       = Some r
       /\ trimPrompt unitTokens sliceSplitter (S (String.length r)) r 250
          = Some r
       /\ (replicate 300 "a" = "" -> r = "")
       /\ (tokenCount unitTokens (replicate 300 "a") <= 250 ->
           r = replicate 300 "a").
Proof.
  split; [exact sliceSplitter_bounded|].
  exact (trimPrompt_idempotent unitTokens sliceSplitter sliceSplitter_bounded
           (replicate 300 "a") 250).
Defined.

(** C7.  [trimPrompt] terminates: every recursive call is on a text
    strictly shorter than the current one (the hard slice to the target
    length when the first chunk is as long as the text, the first chunk
    otherwise), so a number of activations bounded by the length of the
    text gives the result, and more fuel does not change it. *)
Theorem trimPrompt_terminates {token : Type} (encode : string -> list token)
    (splitText : Z -> string -> list string) :
  splitter_bounded splitText ->
  forall (text : string) (budget : Z),
    (forall q,
        trimPrompt_body encode splitText text budget = Recurse q ->
        (String.length q < String.length text)%nat
        /\ budget < tokenCount encode text
        /\ (String.length
              (hd "" (splitText (chunkSizeOf encode text budget) text))
            = String.length text ->
            q = slice0 (chunkSizeOf encode text budget) text))
    /\ exists r,
         forall fuel, (String.length text < fuel)%nat ->
           trimPrompt encode splitText fuel text budget = Some r.
Proof.
  intros Hb text budget. split.
  - intros q Hq. split; [now apply (body_recurse_shorter _ encode splitText Hb) in Hq|].
    destruct (body_recurse _ _ _ _ _ _ Hq) as (_ & Ht & _ & [[_ ->]|[Hne ->]]).
    + auto.
    + split; [assumption|]. intros He. contradiction.
  - destruct (trimPrompt_enough_fuel _ encode splitText Hb
                (S (String.length text)) text budget) as [r Hr]; [lia|].
    exists r. intros fuel Hf.
    apply (trimPrompt_more_fuel _ encode splitText (S (String.length text)));
      [lia|assumption].
Qed.

Lemma trimPrompt_terminates_witness :
  splitter_bounded sliceSplitter
  /\ (forall q,
        trimPrompt_body unitTokens sliceSplitter (replicate 300 "a") 250
        = Recurse q ->
        (String.length q < String.length (replicate 300 "a"))%nat
        /\ 250 < tokenCount unitTokens (replicate 300 "a")
        /\ (String.length
              (hd "" (sliceSplitter
                        (chunkSizeOf unitTokens (replicate 300 "a") 250)
                        (replicate 300 "a")))
            = String.length (replicate 300 "a") ->
            q = slice0 (chunkSizeOf unitTokens (replicate 300 "a") 250)
                       (replicate 300 "a")))
  /\ exists r,
       forall fuel, (String.length (replicate 300 "a") < fuel)%nat ->
         trimPrompt unitTokens sliceSplitter fuel (replicate 300 "a") 250
         = Some r.
Proof.
  split; [exact sliceSplitter_bounded|].
  exact (trimPrompt_terminates unitTokens sliceSplitter sliceSplitter_bounded
           (replicate 300 "a") 250).
Defined.

(** The fallback at work: a splitter that hands the text back whole. *)
Example trimPrompt_hard_cut :
  trimPrompt unitTokens (fun _ text => [text]) 3 (replicate 300 "a") 250
  = Some (replicate 150 "a").
Proof. vm_compute. reflexivity. Qed.

Example trimPrompt_floor :
  trimPrompt unitTokens sliceSplitter 1 (replicate 300 "a") 10
  = Some (replicate 140 "a").
Proof. vm_compute. reflexivity. Qed.

(** ** [withExponentialBackoff] *)

Section BackoffFacts.

Variable T : Type.
Variable ceilMillis : string -> Z.
Variable fn : nat -> settled T.

(** A failure that is not a rate limit leaves the loop at once, at
    whatever attempt it happens. *)
Lemma attempts_other_error (n d : Z) (remaining attempt : nat)
    (lastError : thrown) (slept : list Z) (error : Error) :
  fn attempt = Failed error -> isRateLimit error = false ->
  attempts ceilMillis fn n d (S remaining) attempt lastError slept
  = mkRun (inr (ThrownError error)) (S attempt) slept.
Proof. intros Hf Hr. simpl. now rewrite Hf, Hr. Qed.

Variable errors : nat -> Error.
Local Abbreviation delayAfter := (delayAfter ceilMillis errors).

(** The loop from attempt [a] on, when every attempt before the last
    admitted one fails with a rate limit. *)
Lemma attempts_rate_limited (n d : Z) (remaining : nat) :
  forall (a : nat) (lastError : thrown) (slept : list Z),
    (a + S remaining = Z.to_nat n)%nat ->
    (forall k, (k < Z.to_nat n - 1)%nat ->
               fn k = Failed (errors k) /\ isRateLimit (errors k) = true) ->
    (forall v, fn (Z.to_nat n - 1) = Fulfilled v ->
       attempts ceilMillis fn n d (S remaining) a lastError slept
       = mkRun (inl v) (Z.to_nat n)
               (slept ++ map (delayAfter d) (seq a remaining)))
    /\ (forall e, fn (Z.to_nat n - 1) = Failed e -> isRateLimit e = true ->
       attempts ceilMillis fn n d (S remaining) a lastError slept
       = mkRun (inr (ThrownError (exhausted n e))) (Z.to_nat n)
               (slept ++ map (delayAfter d) (seq a remaining)))
    /\ (forall e, fn (Z.to_nat n - 1) = Failed e -> isRateLimit e = false ->
       attempts ceilMillis fn n d (S remaining) a lastError slept
       = mkRun (inr (ThrownError e)) (Z.to_nat n)
               (slept ++ map (delayAfter d) (seq a remaining))).
Proof.
  induction remaining as [|r IH]; intros a lastError slept Ha Hfn.
  - assert (a = Z.to_nat n - 1)%nat by lia. subst a.
    simpl. rewrite app_nil_r. split; [|split].
    + intros v ->. f_equal. lia.
    + intros e -> ->. simpl.
      replace (Z.of_nat (Z.to_nat n - 1) =? n - 1) with true
        by (symmetry; apply Z.eqb_eq; lia).
      f_equal. lia.
    + intros e -> ->. simpl. f_equal. lia.
  - destruct (Hfn a) as [Hf Hr]; [lia|].
    destruct (IH (S a) (ThrownError (errors a))
                 (slept ++ [delayAfter d a])%list) as (IHv & IHe & IHo);
      [lia|assumption|].
    assert (Hstep :
      attempts ceilMillis fn n d (S (S r)) a lastError slept
      = attempts ceilMillis fn n d (S r) (S a) (ThrownError (errors a))
                 (slept ++ [delayAfter d a])%list).
    { change (attempts ceilMillis fn n d (S (S r)) a lastError slept)
        with (match fn a with
              | Fulfilled v => mkRun (inl v) (S a) slept
              | Failed error =>
                  if negb (isRateLimit error)
                  then mkRun (inr (ThrownError error)) (S a) slept
                  else if Z.of_nat a =? n - 1
                  then mkRun (inr (ThrownError (exhausted n error)))
                             (S a) slept
                  else attempts ceilMillis fn n d (S r) (S a)
                         (ThrownError error)
                         (slept ++ [waitTimeOf ceilMillis d (Z.of_nat a)
                                      (nullish (message error) "")])
              end).
      rewrite Hf, Hr. simpl negb. cbv iota.
      replace (Z.of_nat a =? n - 1) with false
        by (symmetry; apply Z.eqb_neq; lia).
      reflexivity. }
    rewrite Hstep.
    replace (slept ++ map (delayAfter d) (seq a (S r)))%list
      with ((slept ++ [delayAfter d a]) ++ map (delayAfter d) (seq (S a) r))%list
      by (simpl; now rewrite <- app_assoc).
    repeat split; assumption.
Qed.

End BackoffFacts.

Lemma nth_map_seq {A : Type} (f : nat -> A) (dflt : A) (len k a : nat) :
  (k < len)%nat -> nth k (map f (seq a len)) dflt = f (a + k)%nat.
Proof.
  revert k a; induction len as [|len IH]; intros k a Hk; [lia|].
  destruct k as [|k]; simpl; [f_equal; lia|].
  rewrite IH by lia. f_equal. lia.
Qed.

Lemma waitTimeOf_parsed (ceilMillis : string -> Z) (d attempt : Z)
    (m g : string) :
  waitMatch m = Some g -> ceilMillis g <> 0 ->
  waitTimeOf ceilMillis d attempt m = ceilMillis g.
Proof.
  intros Hm Hz. unfold waitTimeOf. rewrite Hm.
  destruct (Z.eqb_spec (ceilMillis g) 0); [contradiction|reflexivity].
Qed.

Lemma waitTimeOf_backoff (ceilMillis : string -> Z) (d attempt : Z)
    (m : string) :
  (waitMatch m = None
   \/ exists g, waitMatch m = Some g /\ ceilMillis g = 0) ->
  waitTimeOf ceilMillis d attempt m = d * 2 ^ attempt.
Proof.
  unfold waitTimeOf. intros [->|(g & -> & ->)]; reflexivity.
Qed.

(** C8.  An operation whose first failure carries no rate-limit marker
    in its message: the wrapper rethrows that very error after one
    invocation, without sleeping. *)
Theorem backoff_rethrows_other_errors {T : Type} (ceilMillis : string -> Z)
    (fn : nat -> settled T) (options : RetryOptions) (error : Error) :
  0 < nullish (maxRetries options) MaxRetries ->
  fn O = Failed error ->
  isRateLimit error = false ->
  withExponentialBackoff ceilMillis fn options
  = mkRun (inr (ThrownError error)) 1 [].
Proof.
  intros Hn Hf Hr. unfold withExponentialBackoff.
  destruct (Z.to_nat (nullish (maxRetries options) MaxRetries)) eqn:E; [lia|].
  now apply attempts_other_error.
Qed.

Lemma backoff_rethrows_other_errors_witness :
  withExponentialBackoff ceilMillis_decimal
    (fun _ => @Failed nat (mkError (Some "socket hang up"))) noOptions
  = mkRun (inr (ThrownError (mkError (Some "socket hang up")))) 1 [].
Proof.
  apply (backoff_rethrows_other_errors ceilMillis_decimal
           (fun _ => @Failed nat (mkError (Some "socket hang up")))
           noOptions (mkError (Some "socket hang up")));
    [reflexivity | reflexivity | reflexivity].
Defined.

(** The run of an operation that fails with a rate limit on each of
    the first [n - 1] invocations, whatever the conversion of the
    captured group to milliseconds is. *)
Lemma backoff_rate_limited_run {T : Type} (ceilMillis : string -> Z)
    (fn : nat -> settled T) (options : RetryOptions) (errors : nat -> Error) :
  let n := nullish (maxRetries options) MaxRetries in
  let d := nullish (initialRetryDelay options) InitialRetryDelay in
  let delays := map (delayAfter ceilMillis errors d) (seq 0 (Z.to_nat n - 1)) in
  1 <= n ->
  (forall k, (k < Z.to_nat n - 1)%nat ->
             fn k = Failed (errors k) /\ isRateLimit (errors k) = true) ->
  (forall v, fn (Z.to_nat n - 1)%nat = Fulfilled v ->
     withExponentialBackoff ceilMillis fn options
     = mkRun (inl v) (Z.to_nat n) delays)
  /\ (forall e m, fn (Z.to_nat n - 1)%nat = Failed e -> isRateLimit e = true ->
     message e = Some m ->
     withExponentialBackoff ceilMillis fn options
     = mkRun (inr (ThrownError
                {| message :=
                     Some ("Failed after "
                           ++ NilZero.string_of_int (Z.to_int n)
                           ++ " attempts with error: " ++ m)%string |}))
             (Z.to_nat n) delays)
  /\ (forall e, fn (Z.to_nat n - 1)%nat = Failed e -> isRateLimit e = false ->
     withExponentialBackoff ceilMillis fn options
     = mkRun (inr (ThrownError e)) (Z.to_nat n) delays)
  /\ List.length delays = (Z.to_nat n - 1)%nat
  /\ (forall k m, (k < Z.to_nat n - 1)%nat -> message (errors k) = Some m ->
        (forall g, waitMatch m = Some g -> ceilMillis g <> 0 ->
                   nth k delays 0 = ceilMillis g)
        /\ (waitMatch m = None
            \/ (exists g, waitMatch m = Some g /\ ceilMillis g = 0) ->
            nth k delays 0 = d * 2 ^ Z.of_nat k)).
Proof.
  intros n d delays Hn Hfn.
  destruct (Z.to_nat n) as [|r] eqn:E; [lia|].
  destruct (attempts_rate_limited T ceilMillis fn errors n d r O ThrownNull [])
    as (Hv & He & Ho); [lia| rewrite E; assumption |].
  rewrite E in Hv, He, Ho. simpl app in Hv, He, Ho.
  replace (S r - 1)%nat with r in * by lia.
  assert (Hdel : delays = map (delayAfter ceilMillis errors d) (seq 0 r))
    by (unfold delays; do 2 f_equal; lia).
  clearbody delays. subst delays.
  assert (Hnth : forall k, (k < r)%nat ->
            nth k (map (delayAfter ceilMillis errors d) (seq 0 r)) 0
            = delayAfter ceilMillis errors d k).
  { intros k Hk. now rewrite nth_map_seq by lia. }
  split; [|split; [|split; [|split]]].
  - intros v Hf. unfold withExponentialBackoff. fold n d. rewrite E.
    now apply Hv.
  - intros e m Hf Hr Hm. unfold withExponentialBackoff. fold n d. rewrite E.
    rewrite (He e Hf Hr). unfold exhausted. rewrite Hm. reflexivity.
  - intros e Hf Hr. unfold withExponentialBackoff. fold n d. rewrite E.
    now apply Ho.
  - now rewrite length_map, length_seq.
  - intros k m Hk Hm. rewrite (Hnth k Hk). unfold delayAfter. rewrite Hm.
    simpl nullish. split.
    + intros g Hg Hz. now apply waitTimeOf_parsed.
    + intros H. now apply waitTimeOf_backoff.
Qed.

(** C9, as amended.  With [n >= 1] attempts allowed and a rate-limit
    failure on each of the first [n - 1] invocations, the wrapper sleeps
    exactly [n - 1] times.  If the [n]-th invocation succeeds its value
    is returned.  If it fails with a rate limit too, an error is thrown
    whose message gives the attempt count and the message of the last
    failure; if it fails with anything else, that failure is rethrown as
    it is.  The delay after attempt [k] is read from the message only
    where the message has the words "try again in", a decimal numeral
    and the letter s: it is then the numeral converted by
    [Math.ceil(parseFloat(numeral) * 1000)] in binary64, unless that is
    zero.  A message without such a passage (an interval in
    milliseconds is one) gives [initialRetryDelay * 2 ^ k], and so does
    a conversion to zero. *)
Theorem backoff_retries_rate_limits {T : Type}
    (fn : nat -> settled T) (options : RetryOptions) (errors : nat -> Error) :
  let n := nullish (maxRetries options) MaxRetries in
  let d := nullish (initialRetryDelay options) InitialRetryDelay in
  let delays :=
    map (delayAfter ceilMillis_binary64 errors d) (seq 0 (Z.to_nat n - 1)) in
  1 <= n ->
  (forall k, (k < Z.to_nat n - 1)%nat ->
             fn k = Failed (errors k) /\ isRateLimit (errors k) = true) ->
  (forall v, fn (Z.to_nat n - 1)%nat = Fulfilled v ->
     withExponentialBackoff ceilMillis_binary64 fn options
     = mkRun (inl v) (Z.to_nat n) delays)
  /\ (forall e m, fn (Z.to_nat n - 1)%nat = Failed e -> isRateLimit e = true ->
     message e = Some m ->
     withExponentialBackoff ceilMillis_binary64 fn options
     = mkRun (inr (ThrownError
                {| message :=
                     Some ("Failed after "
                           ++ NilZero.string_of_int (Z.to_int n)
                           ++ " attempts with error: " ++ m)%string |}))
             (Z.to_nat n) delays)
  /\ (forall e, fn (Z.to_nat n - 1)%nat = Failed e -> isRateLimit e = false ->
     withExponentialBackoff ceilMillis_binary64 fn options
     = mkRun (inr (ThrownError e)) (Z.to_nat n) delays)
  /\ List.length delays = (Z.to_nat n - 1)%nat
  /\ (forall k m, (k < Z.to_nat n - 1)%nat -> message (errors k) = Some m ->
        (forall g, waitMatch m = Some g -> ceilMillis_binary64 g <> 0 ->
                   nth k delays 0
                   = Math_ceil (SFmul 53 1024 (parseFloat g) (binary64_of 1000)))
        /\ (waitMatch m = None
            \/ (exists g, waitMatch m = Some g /\ ceilMillis_binary64 g = 0) ->
            nth k delays 0 = d * 2 ^ Z.of_nat k)).
Proof.
  intros n d delays.
  exact (backoff_rate_limited_run ceilMillis_binary64 fn options errors).
Qed.

Lemma backoff_retries_rate_limits_witness :
  1 <= 3
  /\ withExponentialBackoff ceilMillis_binary64 sampleOperation sampleOptions
     = mkRun (inl 42%nat) 3 [1500; 2000].
Proof.
  split; [lia|].
  refine (proj1 (backoff_retries_rate_limits
                   sampleOperation sampleOptions sampleErrors _ _)
                42%nat eq_refl).
  - simpl. lia.
  - intros k Hk. simpl in Hk.
    destruct k as [|[|k]]; [split; reflexivity | split; reflexivity | lia].
Defined.

(** C9 as the specification words it fails, at four operations run
    with two attempts allowed and the default initial delay.

    An interval of zero seconds: the message matches, the conversion
    gives 0, and the falsy test [!waitTime] sends the wrapper to the
    exponential schedule; it sleeps 1000 ms where the message says 0.

    An interval in milliseconds: the expression wants the letter s
    right after the numeral, the message does not match, and the wrapper
    sleeps 1000 ms where the message says 86.

    An interval of 4.03 seconds: in binary64 the product of 4.03 and
    1000 lies just above 4030, and the wrapper sleeps 4031 ms.

    A last failure that is not a rate limit: it is rethrown as it is,
    with no count of attempts and nothing wrapped. *)
Lemma backoff_delay_counterexamples :
  let zero := "Rate limit reached, please try again in 0s" in
  let millis := "Rate limit reached, please try again in 86ms" in
  let rounded := "Rate limit reached, please try again in 4.03s" in
  let plain := "Rate limit exceeded" in
  let other := mkError (Some "socket hang up") in
  let once := fun (m : string) (k : nat) =>
    if (k <? 1)%nat then Failed (mkError (Some m)) else Fulfilled tt in
  let twice := fun (m : string) (k : nat) =>
    if (k <? 1)%nat then @Failed unit (mkError (Some m)) else Failed other in
  let run := fun fn =>
    withExponentialBackoff ceilMillis_binary64 fn
      {| maxRetries := Some 2; initialRetryDelay := None |} in
  (isRateLimit (mkError (Some zero)) = true
   /\ waitMatch zero = Some "0"
   /\ run (once zero) = mkRun (inl tt) 2 [1000]
   /\ 1000 <> 0)
  /\ (isRateLimit (mkError (Some millis)) = true
      /\ waitMatch millis = None
      /\ run (once millis) = mkRun (inl tt) 2 [1000]
      /\ 1000 <> 86)
  /\ (isRateLimit (mkError (Some rounded)) = true
      /\ waitMatch rounded = Some "4.03"
      /\ run (once rounded) = mkRun (inl tt) 2 [4031]
      /\ 4031 <> 4030)
  /\ (isRateLimit other = false
      /\ isRateLimit (mkError (Some plain)) = true
      /\ run (twice plain) = mkRun (inr (ThrownError other)) 2 [1000]).
Proof. vm_compute. repeat split; discriminate. Qed.

(** The conversion at work: whole and fractional seconds, a trailing
    dot, leading zeros, a value below one millisecond, and the numeral
    whose product with 1000 is not exact in binary64 (the exact decimal
    reading of 4.03 seconds is 4030 ms). *)
Example ceilMillis_binary64_samples :
  map ceilMillis_binary64
      ["1.5"; "20"; "0"; "0.000"; "0.0001"; "1."; "007.50"; "4.03"]
  = [1500; 20000; 0; 0; 1; 1000; 7500; 4031]
  /\ ceilMillis_decimal "4.03" = 4030.
Proof. vm_compute. split; reflexivity. Qed.

(** C10.  With [maxRetries] zero or negative the loop body never runs:
    the operation is not invoked, nothing is slept, and what is thrown
    is the initial [lastError], [null]. *)
Theorem backoff_without_attempts {T : Type} (ceilMillis : string -> Z)
    (fn : nat -> settled T) (options : RetryOptions) :
  nullish (maxRetries options) MaxRetries <= 0 ->
  withExponentialBackoff ceilMillis fn options = mkRun (inr ThrownNull) 0 [].
Proof.
  intros Hn. unfold withExponentialBackoff.
  replace (Z.to_nat (nullish (maxRetries options) MaxRetries)) with O by lia.
  reflexivity.
Qed.

Lemma backoff_without_attempts_witness :
  withExponentialBackoff ceilMillis_decimal sampleOperation
    {| maxRetries := Some 0; initialRetryDelay := None |}
  = mkRun (inr ThrownNull) 0 [].
Proof.
  apply (backoff_without_attempts ceilMillis_decimal sampleOperation
           {| maxRetries := Some 0; initialRetryDelay := None |}).
  simpl. lia.
Defined.

(** With the defaults the loop admits five attempts. *)
Example backoff_default_exhausted :
  withExponentialBackoff ceilMillis_decimal
    (fun _ => @Failed nat (mkError (Some "Rate limit exceeded"))) noOptions
  = mkRun (inr (ThrownError (mkError (Some
      "Failed after 5 attempts with error: Rate limit exceeded"))))
      5 [1000; 2000; 4000; 8000].
Proof. vm_compute. reflexivity. Qed.

(** ** Sets spread into arrays *)

Lemma set_add_In (seen : list string) (x y : string) :
  In y (set_add seen x) <-> In y seen \/ y = x.
Proof.
  induction seen as [|z seen IH]; simpl.
  - intuition congruence.
  - destruct (String.eqb_spec z x) as [->|Hne]; simpl.
    + intuition congruence.
    + rewrite IH. tauto.
Qed.

Lemma set_add_NoDup (seen : list string) (x : string) :
  NoDup seen -> NoDup (set_add seen x).
Proof.
  induction 1 as [|z seen Hz Hnd IH]; simpl.
  - constructor; [intros []|constructor].
  - destruct (String.eqb_spec z x) as [->|Hne].
    + now constructor.
    + constructor; [|assumption].
      rewrite set_add_In. intros [H|H]; [contradiction|congruence].
Qed.

Lemma fold_set_add_In (xs seen : list string) (y : string) :
  In y (fold_left set_add xs seen) <-> In y seen \/ In y xs.
Proof.
  revert seen; induction xs as [|x xs IH]; intros seen; simpl.
  - tauto.
  - rewrite IH, set_add_In. intuition congruence.
Qed.

Lemma fold_set_add_NoDup (xs seen : list string) :
  NoDup seen -> NoDup (fold_left set_add xs seen).
Proof.
  revert seen; induction xs as [|x xs IH]; intros seen H; simpl;
    [assumption|].
  apply IH. now apply set_add_NoDup.
Qed.

Lemma set_spread_NoDup (xs : list string) : NoDup (set_spread xs).
Proof. apply fold_set_add_NoDup. constructor. Qed.

Lemma set_spread_In (xs : list string) (y : string) :
  In y (set_spread xs) <-> In y xs.
Proof. unfold set_spread. rewrite fold_set_add_In. simpl. tauto. Qed.

(** An array that has no duplicates passes through a set unchanged. *)
Lemma fold_set_add_fresh (xs seen : list string) :
  NoDup (seen ++ xs) -> fold_left set_add xs seen = (seen ++ xs)%list.
Proof.
  revert seen; induction xs as [|x xs IH]; intros seen H; simpl.
  - now rewrite app_nil_r.
  - assert (Hx : set_add seen x = (seen ++ [x])%list).
    { assert (Hn : ~ In x seen).
      { intros Hin. apply NoDup_remove_2 in H. apply H.
        apply in_or_app. now left. }
      clear -Hn. induction seen as [|z seen IH]; simpl; [reflexivity|].
      destruct (String.eqb_spec z x) as [->|_].
      - exfalso. apply Hn. now left.
      - f_equal. apply IH. intros Hin. apply Hn. now right. }
    rewrite Hx. rewrite IH; rewrite <- app_assoc; simpl; [reflexivity|assumption].
Qed.

Lemma set_spread_idempotent (xs : list string) :
  set_spread (set_spread xs) = set_spread xs.
Proof.
  unfold set_spread at 1.
  rewrite fold_set_add_fresh; simpl; [reflexivity|apply set_spread_NoDup].
Qed.

(** ** [deepResearch] *)

Lemma halve_up_ceiling (breadth : Z) :
  breadth <= 2 * halve_up breadth < breadth + 2.
Proof.
  unfold halve_up.
  pose proof (Z.div_mod (breadth + 1) 2 ltac:(lia)).
  pose proof (Z.mod_pos_bound (breadth + 1) 2 ltac:(lia)). lia.
Qed.

Lemma halve_up_positive (breadth : Z) : 1 <= breadth -> 1 <= halve_up breadth.
Proof. pose proof (halve_up_ceiling breadth). lia. Qed.

Lemma promise_all_resolved {A : Type} (ps : list (promise A)) (vs : list A) :
  promise_all ps = Resolved vs <-> Forall2 (fun p v => p = Resolved v) ps vs.
Proof.
  revert vs; induction ps as [|p ps IH]; intros vs; simpl.
  - split; [intros [= <-]; constructor|inversion 1; reflexivity].
  - split.
    + destruct p as [v| |]; try discriminate.
      destruct (promise_all ps) as [vs'| |]; try discriminate.
      intros [= <-]. constructor; [reflexivity|now apply IH].
    + inversion 1 as [|? v ? vs' Hp Hrest]; subst.
      apply IH in Hrest. now rewrite Hrest.
Qed.

Lemma promise_all_pending {A : Type} (ps : list (promise A)) :
  promise_all ps = Pending -> In Pending ps.
Proof.
  induction ps as [|p ps IH]; simpl; [discriminate|].
  destruct p as [v|e|]; [|discriminate|auto].
  destruct (promise_all ps); try discriminate. auto.
Qed.

Lemma promise_all_rejected {A : Type} (ps : list (promise A)) (e : Error) :
  promise_all ps = Rejected e -> In (Rejected e) ps.
Proof.
  induction ps as [|p ps IH]; simpl; [discriminate|].
  destruct p as [v|e'|]; [|intros [= ->]; auto|discriminate].
  destruct (promise_all ps); try discriminate.
  intros [= ->]. auto.
Qed.

Lemma map_from_In {A B : Type} (f : nat -> A -> B) (l : list A) (i : nat) (y : B) :
  In y (map_from i f l) -> exists j x, In x l /\ y = f j x.
Proof.
  revert i; induction l as [|x l IH]; intros i; simpl; [tauto|].
  intros [<-|H]; [exists i, x; auto|].
  destruct (IH _ H) as (j & x' & Hin & ->). exists j, x'. auto.
Qed.

Local Open Scope list_scope.

Section OrchestratorFacts.

Variable generateQueries :
  position -> string -> Z -> list string -> settled (list SerpQuery).
Variable search : position -> string -> settled SearchResponse.
Variable generateFindings :
  position -> string -> list string -> Z -> Z -> settled Findings.
Variable trimPrompt_ : string -> Z -> string.

Local Abbreviation research :=
  (deepResearch generateQueries search generateFindings trimPrompt_).
Local Abbreviation branch :=
  (branchTask search generateFindings trimPrompt_).
Local Abbreviation extract :=
  (processSerpResult generateFindings trimPrompt_).

(** Failures of the search and of the extraction are caught. *)
Lemma branch_search_failure recurse here breadth depth ls us i sq e :
  search (here ++ [i]) (query sq) = Failed e ->
  branch recurse here breadth depth ls us i sq = Resolved emptyResult.
Proof. intros H. unfold branchTask. now rewrite H. Qed.

Lemma branch_extraction_failure recurse here breadth depth ls us i sq result e :
  search (here ++ [i]) (query sq) = Fulfilled result ->
  extract (here ++ [i]) (query sq) result 3 (halve_up breadth) = Failed e ->
  branch recurse here breadth depth ls us i sq = Resolved emptyResult.
Proof. intros H1 H2. unfold branchTask. now rewrite H1, H2. Qed.

(** A rejection of a task is the rejection of the invocation it returned. *)
Lemma branch_rejected recurse here breadth depth ls us i sq e :
  branch recurse here breadth depth ls us i sq = Rejected e ->
  exists result found,
    search (here ++ [i]) (query sq) = Fulfilled result
    /\ extract (here ++ [i]) (query sq) result 3 (halve_up breadth)
       = Fulfilled found
    /\ 0 < depth - 1
    /\ recurse (here ++ [i]) (nextQueryOf sq found) (halve_up breadth)
               (depth - 1) (ls ++ newLearnings found)
               (us ++ compact (map url (data result)))
       = Rejected e.
Proof.
  unfold branchTask.
  destruct (search (here ++ [i]) (query sq)) as [result|]; [|discriminate].
  destruct (extract (here ++ [i]) (query sq) result 3 (halve_up breadth))
    as [found|] eqn:Ex; [|discriminate].
  destruct (Z.gtb_spec (depth - 1) 0); [|discriminate].
  intros H'. exists result, found. repeat split; auto.
Qed.

(** Enough fuel: one level per unit of depth, and one more. *)
Lemma deepResearch_settles (fuel : nat) :
  forall here topic breadth depth ls us,
    (Z.to_nat depth < fuel)%nat ->
    research fuel here topic breadth depth ls us <> Pending.
Proof.
  induction fuel as [|fuel IH]; intros here topic breadth depth ls us Hf;
    [lia|].
  simpl.
  destruct (generateSerpQueries generateQueries here topic breadth ls)
    as [serpQueries|e]; [|discriminate].
  destruct (promise_all _) as [rs|e|] eqn:E; try discriminate.
  exfalso. apply promise_all_pending in E.
  apply map_from_In in E. destruct E as (i & sq & _ & E).
  symmetry in E. revert E. unfold branchTask.
  destruct (search (here ++ [i]) (query sq)) as [result|]; [|discriminate].
  destruct (processSerpResult _ _ _ _ _ _ _) as [found|]; [|discriminate].
  destruct (Z.gtb_spec (depth - 1) 0); [|discriminate].
  apply IH. lia.
Qed.

Lemma deepResearch_more_fuel (fuel : nat) :
  forall fuel' here topic breadth depth ls us,
    (fuel <= fuel')%nat ->
    research fuel here topic breadth depth ls us <> Pending ->
    research fuel' here topic breadth depth ls us
    = research fuel here topic breadth depth ls us.
Proof.
  induction fuel as [|fuel IH]; intros fuel' here topic breadth depth ls us
    Hle Hp; [now contradiction Hp|].
  destruct fuel' as [|fuel']; [lia|].
  simpl in *.
  destruct (generateSerpQueries generateQueries here topic breadth ls)
    as [serpQueries|e]; [|reflexivity].
  assert (Hall :
    forall (l : list SerpQuery) (i : nat),
      promise_all (map_from i
        (branch (research fuel) here breadth depth ls us) l) <> Pending ->
      promise_all (map_from i
        (branch (research fuel') here breadth depth ls us) l)
      = promise_all (map_from i
        (branch (research fuel) here breadth depth ls us) l)).
  { induction l as [|sq l IHl]; intros i Hnp; simpl in *; [reflexivity|].
    assert (Hb : branch (research fuel) here breadth depth ls us i sq
                 <> Pending ->
                 branch (research fuel') here breadth depth ls us i sq
                 = branch (research fuel) here breadth depth ls us i sq).
    { unfold branchTask.
      destruct (search (here ++ [i]) (query sq)); [|reflexivity].
      destruct (processSerpResult _ _ _ _ _ _ _); [|reflexivity].
      destruct (depth - 1 >? 0); [|reflexivity].
      intros Hn. apply IH; [lia|assumption]. }
    destruct (branch (research fuel) here breadth depth ls us i sq)
      as [v|e|] eqn:Eb.
    - rewrite Hb by discriminate.
      rewrite IHl; [reflexivity|].
      destruct (promise_all (map_from (S i) _ l)); congruence.
    - now rewrite Hb by discriminate.
    - now contradiction Hnp. }
  rewrite Hall; [reflexivity|].
  destruct (promise_all _); congruence.
Qed.

Lemma map_from_nth {A B : Type} (f : nat -> A -> B) (l : list A) (i j : nat) (x : A) :
  nth_error l j = Some x -> In (f (i + j)%nat x) (map_from i f l).
Proof.
  revert i j; induction l as [|y l IH]; intros i j; destruct j as [|j]; simpl;
    try discriminate.
  - intros [= ->]. left. f_equal. lia.
  - intros H. right. replace (i + S j)%nat with (S i + j)%nat by lia.
    now apply IH.
Qed.

Lemma promise_all_with_rejection {A : Type} (ps : list (promise A)) (e : Error) :
  In (Rejected e) ps -> ~ In Pending ps ->
  exists e', promise_all ps = Rejected e'.
Proof.
  induction ps as [|p ps IH]; simpl; [tauto|].
  intros Hin Hnp. destruct p as [v|e0|].
  - destruct IH as [e' ->]; [intuition congruence|tauto|]. eauto.
  - eauto.
  - tauto.
Qed.

Lemma promise_all_of_resolved {A : Type} (ps : list (promise A)) :
  (forall p, In p ps -> exists v, p = Resolved v) ->
  exists vs, promise_all ps = Resolved vs.
Proof.
  induction ps as [|p ps IH]; simpl; intros H; [eauto|].
  destruct (H p (or_introl eq_refl)) as [v ->].
  destruct IH as [vs ->]; [auto|]. eauto.
Qed.

Lemma branch_settles (fuel : nat) here breadth depth ls us i sq :
  (Z.to_nat depth <= fuel)%nat ->
  branch (research fuel) here breadth depth ls us i sq <> Pending.
Proof.
  intros Hf. unfold branchTask.
  destruct (search (here ++ [i]) (query sq)) as [result|]; [|discriminate].
  destruct (processSerpResult _ _ _ _ _ _ _) as [found|]; [|discriminate].
  destruct (Z.gtb_spec (depth - 1) 0); [|discriminate].
  apply deepResearch_settles. lia.
Qed.

(** What escapes: when the generation service fails in the invocation
    that a branch returns, the invocation above is rejected as well. *)
Lemma deepResearch_rejected_from_below
    (fuel : nat) here topic breadth depth ls us serpQueries i sq result found e :
  (Z.to_nat depth <= fuel)%nat ->
  generateSerpQueries generateQueries here topic breadth ls
  = Fulfilled serpQueries ->
  nth_error serpQueries i = Some sq ->
  search (here ++ [i]) (query sq) = Fulfilled result ->
  extract (here ++ [i]) (query sq) result 3 (halve_up breadth)
  = Fulfilled found ->
  0 < depth - 1 ->
  generateQueries (here ++ [i]) (nextQueryOf sq found) (halve_up breadth)
                  (ls ++ newLearnings found) = Failed e ->
  exists e', research (S fuel) here topic breadth depth ls us = Rejected e'.
Proof.
  intros Hf Hg Hi Hs He Hd Hfail.
  simpl. rewrite Hg.
  destruct (promise_all_with_rejection
              (map_from 0
                 (branch (research fuel) here breadth depth ls us)
                 serpQueries) e) as [e' He'].
  - apply (map_from_nth
             (branch (research fuel) here breadth depth ls us) _ 0 i sq) in Hi.
    simpl in Hi.
    replace (Rejected e)
      with (branch (research fuel) here breadth depth ls us i sq);
      [exact Hi|].
    unfold branchTask. rewrite Hs, He.
    destruct (Z.gtb_spec (depth - 1) 0); [|lia].
    destruct fuel as [|fuel]; [lia|].
    simpl. unfold generateSerpQueries. now rewrite Hfail.
  - intros Hin. apply map_from_In in Hin.
    destruct Hin as (j & x & _ & Hin). symmetry in Hin.
    now apply branch_settles in Hin.
  - rewrite He'. eauto.
Qed.

(** What is caught: as long as the generation service answers, failures
    of the search and of the extraction never reject an invocation. *)
Lemma deepResearch_fulfilled (fuel : nat) :
  (forall here topic n ls,
      exists queries, generateQueries here topic n ls = Fulfilled queries) ->
  forall here topic breadth depth ls us,
    (Z.to_nat depth < fuel)%nat ->
    exists r, research fuel here topic breadth depth ls us = Resolved r.
Proof.
  intros Hgen.
  induction fuel as [|fuel IH]; intros here topic breadth depth ls us Hf;
    [lia|].
  simpl. unfold generateSerpQueries.
  destruct (Hgen here topic breadth ls) as [queries ->].
  destruct (promise_all_of_resolved
              (map_from 0
                 (branch (research fuel) here breadth depth ls us)
                 (array_slice0 breadth queries))) as [rs ->]; [|eauto].
  intros p Hp. apply map_from_In in Hp. destruct Hp as (i & sq & _ & ->).
  unfold branchTask.
  destruct (search (here ++ [i]) (query sq)) as [result|]; [|eauto].
  destruct (processSerpResult _ _ _ _ _ _ _) as [found|]; [|eauto].
  destruct (Z.gtb_spec (depth - 1) 0); [|eauto].
  apply IH. lia.
Qed.

End OrchestratorFacts.

(** C1.  A branch task whose search and extraction succeeded computes
    the child breadth [ceil(breadth / 2)], which is at least 1 when the
    breadth is, and the child depth [depth - 1].  With a positive child
    depth its result is that of [deepResearch] called with these
    parameters, the prior learnings followed by the branch's and the
    prior URLs followed by the branch's; otherwise it is exactly these
    two accumulated arrays.  As sets the accumulated arrays are the
    unions. *)
Theorem branch_recurses_or_ends
    (generateQueries :
       position -> string -> Z -> list string -> settled (list SerpQuery))
    (search : position -> string -> settled SearchResponse)
    (generateFindings :
       position -> string -> list string -> Z -> Z -> settled Findings)
    (trimPrompt_ : string -> Z -> string)
    (fuel : nat) (here : position) (breadth depth : Z)
    (priorLearnings priorUrls : list string) (i : nat) (serpQuery : SerpQuery)
    (result : SearchResponse) (found : Findings) :
  let research :=
    deepResearch generateQueries search generateFindings trimPrompt_ fuel in
  let task :=
    branchTask search generateFindings trimPrompt_ research here breadth depth
               priorLearnings priorUrls i serpQuery in
  let childBreadth := halve_up breadth in
  let childDepth := depth - 1 in
  let allLearnings := priorLearnings ++ newLearnings found in
  let allUrls := priorUrls ++ compact (map url (data result)) in
  1 <= breadth -> 0 <= depth ->
  search (here ++ [i]) (query serpQuery) = Fulfilled result ->
  processSerpResult generateFindings trimPrompt_ (here ++ [i])
    (query serpQuery) result 3 childBreadth = Fulfilled found ->
  breadth <= 2 * childBreadth < breadth + 2
  /\ 1 <= childBreadth
  /\ (0 < childDepth ->
      task = research (here ++ [i]) (nextQueryOf serpQuery found)
                      childBreadth childDepth allLearnings allUrls)
  /\ (childDepth <= 0 ->
      task = Resolved {| learnings := allLearnings; visitedUrls := allUrls |})
  /\ (forall x, In x allLearnings
                <-> In x priorLearnings \/ In x (newLearnings found))
  /\ (forall x, In x allUrls
                <-> In x priorUrls \/ In x (compact (map url (data result)))).
Proof.
  intros research task childBreadth childDepth allLearnings allUrls
    Hb Hd Hs He.
  split; [apply halve_up_ceiling|].
  split; [now apply halve_up_positive|].
  unfold task, branchTask. rewrite Hs. fold childBreadth. rewrite He.
  fold childDepth allLearnings allUrls.
  split; [|split; [|split]].
  - intros H. destruct (Z.gtb_spec childDepth 0); [reflexivity|lia].
  - intros H. destruct (Z.gtb_spec childDepth 0); [lia|reflexivity].
  - intros x. apply in_app_iff.
  - intros x. apply in_app_iff.
Qed.

Lemma branch_recurses_or_ends_witness :
  let q := {| query := "sodium ion batteries"; researchGoal := "cost per kWh" |} in
  let found := {| newLearnings := ["about sodium ion batteries";
                                   "batteries store energy"];
                  followUpQuestions := ["what next?"] |} in
  1 <= 3 /\ 0 <= 2
  /\ branchTask sampleSearch sampleFindings sampleTrim
       (deepResearch sampleGenerate sampleSearch sampleFindings sampleTrim 2)
       [] 3 2 ["known"] [] 1 q
     = deepResearch sampleGenerate sampleSearch sampleFindings sampleTrim 2
         [1%nat] (nextQueryOf q found) 2 1
         ["known"; "about sodium ion batteries"; "batteries store energy"]
         ["https://example.org/sodium ion batteries"%string].
Proof.
  intros q found.
  split; [lia|]. split; [lia|].
  refine (proj1 (proj2 (proj2
    (branch_recurses_or_ends sampleGenerate sampleSearch sampleFindings
       sampleTrim 2 [] 3 2 ["known"] [] 1 q
       {| data := [ {| url := Some "https://example.org/sodium ion batteries"%string;
                       markdown := Some "text"%string |};
                    {| url := None; markdown := None |} ] |}
       found _ _ _ _))) _).
  - lia.
  - lia.
  - reflexivity.
  - reflexivity.
  - lia.
Defined.

(** The template of the next query, on the sample branch. *)
Example nextQueryOf_sample :
  nextQueryOf {| query := "q"; researchGoal := "cost per kWh" |}
              {| newLearnings := []; followUpQuestions := ["what next?"; "and then?"] |}
  = String.concat (String (ascii_of_nat 10) EmptyString)
      ["Previous research goal: cost per kWh"%string;
       "            Follow-up research directions: "%string;
       "what next?"%string;
       "and then?"%string].
Proof. vm_compute. reflexivity. Qed.

(** C3.  With one unit of fuel per level, [deepResearch] settles; when
    it is fulfilled, its learnings and its visited URLs have no
    duplicates, and they are, as sets, the unions of the learnings and
    of the URLs of the results of its branch tasks. *)
Theorem deepResearch_result_deduplicated
    (generateQueries :
       position -> string -> Z -> list string -> settled (list SerpQuery))
    (search : position -> string -> settled SearchResponse)
    (generateFindings :
       position -> string -> list string -> Z -> Z -> settled Findings)
    (trimPrompt_ : string -> Z -> string)
    (fuel : nat) (here : position) (topic : string) (breadth depth : Z)
    (priorLearnings priorUrls : list string) :
  let research :=
    deepResearch generateQueries search generateFindings trimPrompt_ in
  (Z.to_nat depth <= fuel)%nat ->
  research (S fuel) here topic breadth depth priorLearnings priorUrls
  <> Pending
  /\ forall r,
       research (S fuel) here topic breadth depth priorLearnings priorUrls
       = Resolved r ->
       NoDup (learnings r) /\ NoDup (visitedUrls r)
       /\ exists serpQueries results,
            generateSerpQueries generateQueries here topic breadth
              priorLearnings = Fulfilled serpQueries
            /\ Forall2 (fun t res => t = Resolved res)
                 (taskResults generateQueries search generateFindings
                    trimPrompt_ fuel here breadth depth priorLearnings
                    priorUrls serpQueries)
                 results
            /\ r = mergeResults results
            /\ (forall x, In x (learnings r)
                          <-> exists res, In res results /\ In x (learnings res))
            /\ (forall x, In x (visitedUrls r)
                          <-> exists res, In res results
                                          /\ In x (visitedUrls res)).
Proof.
  intros research Hf. split.
  - apply deepResearch_settles. lia.
  - intros r. unfold research. simpl.
    destruct (generateSerpQueries generateQueries here topic breadth
                priorLearnings) as [serpQueries|e]; [|discriminate].
    destruct (promise_all _) as [results|e|] eqn:E; try discriminate.
    intros [= <-]. simpl.
    split; [apply set_spread_NoDup|].
    split; [apply set_spread_NoDup|].
    exists serpQueries, results.
    split; [reflexivity|].
    split; [now apply promise_all_resolved|].
    split; [reflexivity|].
    split; intros x; rewrite set_spread_In, in_flat_map; reflexivity.
Qed.

Lemma deepResearch_result_deduplicated_witness :
  (Z.to_nat 1 <= 1)%nat
  /\ NoDup (learnings
       {| learnings := ["about solid state batteries"%string;
                        "batteries store energy"%string;
                        "about sodium ion batteries"%string];
          visitedUrls := ["https://example.org/solid state batteries"%string;
                          "https://example.org/sodium ion batteries"%string] |}).
Proof.
  split; [simpl; lia|].
  refine (proj1 (proj2 (deepResearch_result_deduplicated sampleGenerate
            sampleSearch sampleFindings sampleTrim 1 [] "batteries"%string
            2 1 [] [] _) _ _)).
  - simpl; lia.
  - vm_compute. reflexivity.
Defined.

(** C2 at a failing input.  Breadth 2, depth 2: the first branch
    searches and extracts, then returns the promise of the recursive
    call; the generation service fails in that call, the rejection
    passes the [try] of the branch, and the whole run is rejected,
    although the second branch, taken alone, is fulfilled with its
    findings. *)
Lemma deepResearch_child_rejection_escapes :
  let run fuel :=
    deepResearch sampleGenerate sampleSearch sampleFindings sampleTrim fuel in
  let tasks :=
    taskResults sampleGenerate sampleSearch sampleFindings sampleTrim
      2 [] 2 2 [] []
      [ {| query := "solid state batteries"; researchGoal := "energy density" |};
        {| query := "sodium ion batteries"; researchGoal := "cost per kWh" |} ] in
  run 3%nat [] "batteries"%string 2 2 [] []
  = Rejected (mkError (Some "No object generated: response did not match schema."%string))
  /\ nth 0 tasks Pending
     = Rejected (mkError (Some "No object generated: response did not match schema."%string))
  /\ nth 1 tasks Pending
     = Resolved
         {| learnings := ["about sodium ion batteries"%string;
                          "batteries store energy"%string;
                          "about cell lifetime"%string];
            visitedUrls := ["https://example.org/sodium ion batteries"%string;
                            "https://example.org/cell lifetime"%string] |}.
Proof. vm_compute. repeat split. Qed.

(** ** The limiter *)

Lemma running_app (a b : list task) :
  running (a ++ b) = (running a + running b)%nat.
Proof.
  induction a as [|t a IH]; simpl; [reflexivity|].
  destruct t; simpl; lia.
Qed.

Lemma running_queued (n : nat) : running (repeat Queued n) = O.
Proof. induction n; simpl; auto. Qed.

Lemma within_queued (K n : nat) :
  forallb (task_within K) (repeat Queued n) = true.
Proof. induction n; simpl; auto. Qed.

Lemma limiter_within_spec (K : nat) (ts : list task) :
  limiter_within K ts = true
  <-> (running ts <= K)%nat /\ forallb (task_within K) ts = true.
Proof.
  unfold limiter_within. rewrite andb_true_iff, Nat.leb_le. reflexivity.
Qed.

Lemma within_replace (K : nat) (before after : list task) (t t' : task) :
  (task_within K t = true -> task_within K t' = true) ->
  forallb (task_within K) (before ++ t :: after) = true ->
  forallb (task_within K) (before ++ t' :: after) = true.
Proof.
  intros Ht. rewrite !forallb_app. simpl. rewrite !andb_true_iff.
  intuition.
Qed.

Lemma step_within (K : nat) (ts ts' : list task) :
  step K ts ts' -> limiter_within K ts = true -> limiter_within K ts' = true.
Proof.
  induction 1 as [before after Hfifo Hfree | before after n
                 | before after c | before after ts ts' Hstep IH
                 | before after ts ts' Hstep IH];
    rewrite !limiter_within_spec, !running_app; simpl;
    intros [Hrun Hall]; (split; [lia|]);
    revert Hall; apply within_replace; simpl; auto.
  intros _. rewrite running_queued, within_queued. reflexivity.
Qed.

Lemma steps_within (K : nat) (ts ts' : list task) :
  steps K ts ts' -> limiter_within K ts = true -> limiter_within K ts' = true.
Proof.
  induction 1 as [|ts1 ts2 ts3 H12 _ IH]; [auto|].
  intros H. apply IH. now apply (step_within K ts1).
Qed.

Lemma within_all_limiters (K : nat) (ts l : list task) :
  limiter_in ts l -> limiter_within K ts = true -> (running l <= K)%nat.
Proof.
  induction 1 as [ts | ts below l Hin _ IH | ts below l Hin _ IH];
    intros H; apply limiter_within_spec in H; destruct H as [Hrun Hall].
  - assumption.
  - apply IH. rewrite forallb_forall in Hall. exact (Hall _ Hin).
  - apply IH. rewrite forallb_forall in Hall. exact (Hall _ Hin).
Qed.

(** C4, as amended.  Every invocation of [deepResearch] has a limiter
    of its own, of size [K]: however the tasks of the tree are
    scheduled, each limiter has at most [K] of its own tasks active. *)
Theorem limiter_bounds_each_invocation (K n : nat) (ts l : list task) :
  steps K (repeat Queued n) ts ->
  limiter_in ts l ->
  (running l <= K)%nat.
Proof.
  intros Hsteps Hin.
  apply (within_all_limiters K ts l Hin).
  apply (steps_within K (repeat Queued n) ts Hsteps).
  apply limiter_within_spec. rewrite running_queued, within_queued.
  split; [lia|reflexivity].
Qed.

Lemma limiter_bounds_each_invocation_witness :
  (running [Active None] <= 1)%nat.
Proof.
  apply (limiter_bounds_each_invocation 1 2
           [Active (Some [Active None]); Queued] [Active None]).
  - apply (steps_step 1 _ [Active None; Queued]);
      [exact (step_start 1 [] [Queued] eq_refl (le_n 1))|].
    apply (steps_step 1 _ [Active (Some [Queued]); Queued]);
      [exact (step_recurse 1 [] [Queued] 1)|].
    apply (steps_step 1 _ [Active (Some [Active None]); Queued]);
      [|apply steps_refl].
    exact (step_below_active 1 [] [Queued] [Queued] [Active None]
             (step_start 1 [] [] eq_refl (le_n 1))).
  - apply (limiter_of_active _ [Active None]); [now left|apply limiter_root].
Defined.

(** C4 as the specification words it fails.  With the limit of the
    source, 1, a task that has called [deepResearch] keeps its slot
    while a task of the invocation it waits for holds the slot of that
    invocation's limiter: two branch tasks are in flight.  With a limit
    of 2, two root tasks call [deepResearch] and each invocation runs
    two tasks of its own: four tasks are searching at once. *)
Lemma limiter_is_not_process_wide :
  (exists ts,
      steps (Z.to_nat ConcurrencyLimit) [Queued] ts
      /\ (Z.to_nat ConcurrencyLimit < in_flight ts)%nat)
  /\ (exists ts,
      steps 2 [Queued; Queued] ts /\ (2 < busy ts)%nat).
Proof.
  split.
  - exists [Active (Some [Active None])]. split; [|vm_compute; lia].
    change (Z.to_nat ConcurrencyLimit) with 1%nat.
    apply (steps_step 1 _ [Active None]);
      [exact (step_start 1 [] [] eq_refl (le_n 1))|].
    apply (steps_step 1 _ [Active (Some [Queued])]);
      [exact (step_recurse 1 [] [] 1)|].
    apply (steps_step 1 _ [Active (Some [Active None])]); [|apply steps_refl].
    exact (step_below_active 1 [] [] [Queued] [Active None]
             (step_start 1 [] [] eq_refl (le_n 1))).
  - exists [Active (Some [Active None; Active None]);
            Active (Some [Active None; Active None])].
    split; [|vm_compute; lia].
    assert (first_of_two : step 2 [Queued; Queued] [Active None; Queued])
      by (apply (step_start 2 [] [Queued]); [reflexivity|simpl; lia]).
    assert (second_of_two : step 2 [Active None; Queued] [Active None; Active None])
      by (apply (step_start 2 [Active None] []); [reflexivity|simpl; lia]).
    apply (steps_step 2 _ _ _ first_of_two).
    apply (steps_step 2 _ _ _ second_of_two).
    apply (steps_step 2 _ _ _ (step_recurse 2 [] [Active None] 2)).
    apply (steps_step 2 _ _ _
             (step_recurse 2 [Active (Some [Queued; Queued])] [] 2)).
    apply (steps_step 2 _ _ _
             (step_below_active 2 [] [Active (Some [Queued; Queued])]
                _ _ first_of_two)).
    apply (steps_step 2 _ _ _
             (step_below_active 2 [] [Active (Some [Queued; Queued])]
                _ _ second_of_two)).
    apply (steps_step 2 _ _ _
             (step_below_active 2 [Active (Some [Active None; Active None])] []
                _ _ first_of_two)).
    apply (steps_step 2 _ _ _
             (step_below_active 2 [Active (Some [Active None; Active None])] []
                _ _ second_of_two)).
    apply steps_refl.
Qed.

(* ================================================================= *)
(** * Part III: further properties of the same code *)
(* ================================================================= *)

(** ** [withExponentialBackoff]: every run *)

Section BackoffRuns.

Variable T : Type.
Variable ceilMillis : string -> Z.
Variable fn : nat -> settled T.

(** One iteration of the loop. *)
Lemma attempts_step (n d : Z) (remaining a : nat) (lastError : thrown)
    (slept : list Z) :
  attempts ceilMillis fn n d (S remaining) a lastError slept
  = match fn a with
    | Fulfilled v => mkRun (inl v) (S a) slept
    | Failed error =>
        if negb (isRateLimit error)
        then mkRun (inr (ThrownError error)) (S a) slept
        else if Z.of_nat a =? n - 1
        then mkRun (inr (ThrownError (exhausted n error))) (S a) slept
        else attempts ceilMillis fn n d remaining (S a) (ThrownError error)
               (slept ++ [waitTimeOf ceilMillis d (Z.of_nat a)
                            (nullish (message error) "")])
    end.
Proof. reflexivity. Qed.

Lemma attempts_shape (n d : Z) (remaining : nat) :
  forall (a : nat) (lastError : thrown) (slept : list Z),
    (a + S remaining = Z.to_nat n)%nat ->
    let r := attempts ceilMillis fn n d (S remaining) a lastError slept in
    (calls r <= Z.to_nat n)%nat /\ left_loop ceilMillis fn n d a slept r.
Proof.
  assert (Hstop : forall a slept (o : T + thrown),
            (a < Z.to_nat n)%nat ->
            match o with
            | inl v => fn a = Fulfilled v
            | inr ThrownNull => False
            | inr (ThrownError e) =>
                (fn a = Failed e /\ isRateLimit e = false)
                \/ (S a = Z.to_nat n
                    /\ exists e0, fn a = Failed e0 /\ isRateLimit e0 = true
                                  /\ e = exhausted n e0)
            end ->
            (calls (mkRun o (S a) slept) <= Z.to_nat n)%nat
            /\ left_loop ceilMillis fn n d a slept (mkRun o (S a) slept)).
  { intros a slept o Ha Ho. unfold left_loop. cbn [calls sleeps outcome].
    replace (S a - a - 1)%nat with O by lia.
    replace (S a - 1)%nat with a by lia. simpl. rewrite app_nil_r.
    split; [lia|]. split; [lia|]. split; [reflexivity|].
    split; [intros k Hk; lia|exact Ho]. }
  induction remaining as [|rem IH]; intros a lastError slept Hsync r;
    subst r; rewrite attempts_step.
  - destruct (fn a) as [v|e] eqn:Ef; [apply Hstop; [lia|exact Ef]|].
    destruct (isRateLimit e) eqn:Er; simpl negb; cbv iota.
    + replace (Z.of_nat a =? n - 1) with true
        by (symmetry; apply Z.eqb_eq; lia).
      apply Hstop; [lia|]. right. split; [lia|]. exists e. auto.
    + apply Hstop; [lia|]. now left.
  - destruct (fn a) as [v|e] eqn:Ef; [apply Hstop; [lia|exact Ef]|].
    destruct (isRateLimit e) eqn:Er; simpl negb; cbv iota;
      [|apply Hstop; [lia|now left]].
    replace (Z.of_nat a =? n - 1) with false
      by (symmetry; apply Z.eqb_neq; lia).
    specialize (IH (S a) (ThrownError e)
                  (slept ++ [waitTimeOf ceilMillis d (Z.of_nat a)
                               (nullish (message e) "")])
                  ltac:(lia)).
    cbv zeta in IH. destruct IH as (Hle & Hlt & Hsl & Hfail & Hout).
    set (r := attempts ceilMillis fn n d (S rem) (S a) (ThrownError e) _) in *.
    split; [exact Hle|]. unfold left_loop.
    split; [lia|]. split; [|split; [|exact Hout]].
    + rewrite Hsl. rewrite <- app_assoc. f_equal.
      replace (calls r - a - 1)%nat with (S (calls r - S a - 1)) by lia.
      simpl. f_equal. unfold delayOf at 1. now rewrite Ef.
    + intros k Hk. destruct (Nat.eq_dec k a) as [->|Hne]; [eauto|].
      apply Hfail. lia.
Qed.

End BackoffRuns.

(** The whole run, with the loop entered at attempt 0. *)
Lemma backoff_run {T : Type} (ceilMillis : string -> Z)
    (fn : nat -> settled T) (options : RetryOptions) :
  let n := nullish (maxRetries options) MaxRetries in
  let d := nullish (initialRetryDelay options) InitialRetryDelay in
  let r := withExponentialBackoff ceilMillis fn options in
  (n <= 0 /\ r = mkRun (inr ThrownNull) 0 [])
  \/ (1 <= n /\ (calls r <= Z.to_nat n)%nat
      /\ left_loop ceilMillis fn n d 0 [] r).
Proof.
  intros n d r. subst r. unfold withExponentialBackoff. fold n d.
  destruct (Z.to_nat n) as [|rem] eqn:E.
  - left. split; [lia|reflexivity].
  - right. split; [lia|].
    destruct (attempts_shape T ceilMillis fn n d rem O ThrownNull [])
      as [Hle Hloop]; [lia|].
    rewrite E in Hle. split; assumption.
Qed.

(** X1.  Whatever the operation does, the wrapper invokes it at most
    [maxRetries] times and sleeps exactly once between two consecutive
    invocations; the delay slept after invocation [k] is the one the
    catch block computes from the failure of invocation [k]. *)
Theorem backoff_run_shape {T : Type} (ceilMillis : string -> Z)
    (fn : nat -> settled T) (options : RetryOptions) :
  let n := nullish (maxRetries options) MaxRetries in
  let d := nullish (initialRetryDelay options) InitialRetryDelay in
  let r := withExponentialBackoff ceilMillis fn options in
  (calls r <= Z.to_nat n)%nat
  /\ sleeps r = map (delayOf ceilMillis fn d) (seq 0 (calls r - 1))
  /\ List.length (sleeps r) = (calls r - 1)%nat.
Proof.
  intros n d r.
  pose proof (backoff_run ceilMillis fn options) as H.
  cbv zeta in H. fold n d in H. fold r in H.
  destruct H as [[Hn Hr]|(Hn & Hle & Hlt & Hsl & _)].
  - rewrite Hr. simpl. repeat split; lia.
  - split; [exact Hle|].
    replace (calls r - 0 - 1)%nat with (calls r - 1)%nat in Hsl by lia.
    simpl app in Hsl. split; [exact Hsl|].
    rewrite Hsl at 1. now rewrite length_map, length_seq.
Qed.

Section AnyRejectionRuns.

Variable T : Type.
Variable ceilMillis : string -> Z.
Variable fn : nat -> AnyRejection.settled T.

(** One iteration of the loop. *)
Lemma any_attempts_step (n d : Z) (remaining a : nat)
    (lastError : AnyRejection.thrown) (slept : list Z) :
  AnyRejection.attempts ceilMillis fn n d (S remaining) a lastError slept
  = match fn a with
    | AnyRejection.Fulfilled v => AnyRejection.mkRun (inl v) (S a) slept
    | AnyRejection.Failed error =>
        match error with
        | AnyRejection.RejectNullish =>
            AnyRejection.mkRun (inr AnyRejection.ThrownTypeError) (S a) slept
        | AnyRejection.RejectValue (AnyRejection.MessageOther _ _) =>
            AnyRejection.mkRun (inr AnyRejection.ThrownTypeError) (S a) slept
        | AnyRejection.RejectValue AnyRejection.MessageAbsent =>
            AnyRejection.mkRun (inr (AnyRejection.ThrownValue error)) (S a) slept
        | AnyRejection.RejectValue (AnyRejection.MessageString m) =>
            if negb (includes (toLowerCase m) "rate limit")
            then AnyRejection.mkRun (inr (AnyRejection.ThrownValue error))
                   (S a) slept
            else if Z.of_nat a =? n - 1
            then AnyRejection.mkRun
                   (inr (AnyRejection.ThrownError
                           (exhausted n (mkError (Some m)))))
                   (S a) slept
            else AnyRejection.attempts ceilMillis fn n d remaining (S a)
                   (AnyRejection.ThrownValue error)
                   (slept ++ [waitTimeOf ceilMillis d (Z.of_nat a) m])
        end
    end.
Proof. reflexivity. Qed.

Lemma any_attempts_shape (n d : Z) (remaining : nat) :
  forall (a : nat) (lastError : AnyRejection.thrown) (slept : list Z),
    (a + S remaining = Z.to_nat n)%nat ->
    let r := AnyRejection.attempts ceilMillis fn n d (S remaining) a
               lastError slept in
    (a < AnyRejection.calls r <= Z.to_nat n)%nat
    /\ (forall k, (a <= k < AnyRejection.calls r - 1)%nat ->
                  exists m, AnyRejection.rateLimited fn k m)
    /\ AnyRejection.ended fn n (AnyRejection.calls r) (AnyRejection.outcome r).
Proof.
  assert (Hstop : forall a slept (o : T + AnyRejection.thrown),
            (a < Z.to_nat n)%nat ->
            AnyRejection.ended fn n (S a) o ->
            let r := AnyRejection.mkRun o (S a) slept in
            (a < AnyRejection.calls r <= Z.to_nat n)%nat
            /\ (forall k, (a <= k < AnyRejection.calls r - 1)%nat ->
                          exists m, AnyRejection.rateLimited fn k m)
            /\ AnyRejection.ended fn n (AnyRejection.calls r)
                 (AnyRejection.outcome r)).
  { intros a slept o Ha Ho. simpl. split; [lia|]. split; [|exact Ho].
    intros k Hk. lia. }
  assert (Hlast : forall a, (S a - 1)%nat = a) by (intros; lia).
  induction remaining as [|rem IH]; intros a lastError slept Hsync r;
    subst r; rewrite any_attempts_step.
  - destruct (fn a) as [v|[|[|m|truthy hasIncludes]]] eqn:Ef.
    + apply Hstop; [lia|]. simpl. now rewrite Nat.sub_0_r.
    + apply Hstop; [lia|]. simpl. rewrite Nat.sub_0_r. now left.
    + apply Hstop; [lia|]. simpl. rewrite Nat.sub_0_r. auto.
    + destruct (includes (toLowerCase m) "rate limit") eqn:Er;
        simpl negb; cbv iota.
      * replace (Z.of_nat a =? n - 1) with true
          by (symmetry; apply Z.eqb_eq; lia).
        apply Hstop; [lia|]. simpl. rewrite Nat.sub_0_r.
        split; [lia|]. exists m. split; [split; assumption|reflexivity].
      * apply Hstop; [lia|]. simpl. rewrite Nat.sub_0_r.
        split; [exact Ef|]. right. exists m. auto.
    + apply Hstop; [lia|]. simpl. rewrite Nat.sub_0_r. right. eauto.
  - destruct (fn a) as [v|[|[|m|truthy hasIncludes]]] eqn:Ef.
    + apply Hstop; [lia|]. simpl. now rewrite Nat.sub_0_r.
    + apply Hstop; [lia|]. simpl. rewrite Nat.sub_0_r. now left.
    + apply Hstop; [lia|]. simpl. rewrite Nat.sub_0_r. auto.
    + destruct (includes (toLowerCase m) "rate limit") eqn:Er;
        simpl negb; cbv iota.
      * replace (Z.of_nat a =? n - 1) with false
          by (symmetry; apply Z.eqb_neq; lia).
        cbv zeta.
        specialize (IH (S a)
                      (AnyRejection.ThrownValue
                         (AnyRejection.RejectValue
                            (AnyRejection.MessageString m)))
                      (slept ++ [waitTimeOf ceilMillis d (Z.of_nat a) m])
                      ltac:(lia)).
        cbv zeta in IH. destruct IH as (Hc & Hfail & Hend).
        split; [lia|]. split; [|exact Hend].
        intros k Hk. destruct (Nat.eq_dec k a) as [->|Hne].
        -- exists m. split; assumption.
        -- apply Hfail. lia.
      * apply Hstop; [lia|]. simpl. rewrite Nat.sub_0_r.
        split; [exact Ef|]. right. exists m. auto.
    + apply Hstop; [lia|]. simpl. rewrite Nat.sub_0_r. right. eauto.
Qed.

(** On error objects the loop over rejection values is the loop over
    error objects. *)
Lemma any_attempts_refine (fn0 : nat -> settled T) (n d : Z)
    (remaining : nat) :
  (forall k, fn k = ofSettled (fn0 k)) ->
  forall (a : nat) (lastError : AnyRejection.thrown) (lastError0 : thrown)
         (slept : list Z),
    asError lastError = Some lastError0 ->
    asRun (AnyRejection.attempts ceilMillis fn n d remaining a lastError slept)
    = Some (attempts ceilMillis fn0 n d remaining a lastError0 slept).
Proof.
  intros Hfn. induction remaining as [|rem IH];
    intros a lastError lastError0 slept Hl.
  - unfold asRun. simpl. now rewrite Hl.
  - rewrite any_attempts_step, attempts_step, Hfn.
    destruct (fn0 a) as [v|[[m|]]]; simpl ofSettled; cbv iota beta;
      [reflexivity| |reflexivity].
    unfold ofError, isRateLimit. simpl message. cbv iota.
    destruct (includes (toLowerCase m) "rate limit"); simpl negb; cbv iota;
      [|reflexivity].
    destruct (Z.of_nat a =? n - 1); [reflexivity|].
    cbv zeta. simpl nullish. now apply IH.
Qed.

End AnyRejectionRuns.

(** On error objects the wrapper over rejection values runs as the
    wrapper over error objects does. *)
Lemma any_rejection_refines {T : Type} (ceilMillis : string -> Z)
    (fn : nat -> settled T) (options : RetryOptions) :
  asRun (AnyRejection.withExponentialBackoff ceilMillis
           (fun k => ofSettled (fn k)) options)
  = Some (withExponentialBackoff ceilMillis fn options).
Proof.
  unfold AnyRejection.withExponentialBackoff, withExponentialBackoff.
  now apply any_attempts_refine.
Qed.

(** A rejection with [null]: the catch block throws before it can
    rethrow or retry. *)
Example backoff_null_rejection :
  AnyRejection.withExponentialBackoff ceilMillis_binary64
    (fun _ => @AnyRejection.Failed nat AnyRejection.RejectNullish) noOptions
  = AnyRejection.mkRun (inr AnyRejection.ThrownTypeError) 1 [].
Proof. reflexivity. Qed.

(** X2.  How a run can end, whatever value the operation rejects with.
    There are five ways.  A value is the value of the last invocation.
    [null] is thrown only when no attempt is allowed.  A rejection value
    is rethrown as it is when it has no message, or a message without
    the rate-limit marker.  A [TypeError] comes out of the catch block
    itself when the rejection value is [null] or [undefined], or its
    message is neither a string nor absent.  The "Failed after" error is
    made once [maxRetries] invocations have failed with a rate limit.
    In every case all invocations before the last failed with a rate
    limit, and no more than [maxRetries] were made. *)
Theorem backoff_outcome {T : Type} (ceilMillis : string -> Z)
    (fn : nat -> AnyRejection.settled T) (options : RetryOptions) :
  let n := nullish (maxRetries options) MaxRetries in
  let r := AnyRejection.withExponentialBackoff ceilMillis fn options in
  let c := AnyRejection.calls r in
  (c <= Z.to_nat n)%nat
  /\ (forall k, (k < c - 1)%nat ->
        exists m, fn k = AnyRejection.Failed
                           (AnyRejection.RejectValue
                              (AnyRejection.MessageString m))
                  /\ includes (toLowerCase m) "rate limit" = true)
  /\ match AnyRejection.outcome r with
     | inl v => (1 <= c)%nat /\ fn (c - 1)%nat = AnyRejection.Fulfilled v
     | inr AnyRejection.ThrownNull => n <= 0 /\ c = O
     | inr (AnyRejection.ThrownValue x) =>
         (1 <= c)%nat
         /\ fn (c - 1)%nat = AnyRejection.Failed x
         /\ (x = AnyRejection.RejectValue AnyRejection.MessageAbsent
             \/ exists m,
                  x = AnyRejection.RejectValue (AnyRejection.MessageString m)
                  /\ includes (toLowerCase m) "rate limit" = false)
     | inr AnyRejection.ThrownTypeError =>
         (1 <= c)%nat
         /\ (fn (c - 1)%nat = AnyRejection.Failed AnyRejection.RejectNullish
             \/ exists truthy hasIncludes,
                  fn (c - 1)%nat
                  = AnyRejection.Failed
                      (AnyRejection.RejectValue
                         (AnyRejection.MessageOther truthy hasIncludes)))
     | inr (AnyRejection.ThrownError e) =>
         c = Z.to_nat n /\ (1 <= c)%nat
         /\ exists m,
              fn (c - 1)%nat
              = AnyRejection.Failed
                  (AnyRejection.RejectValue (AnyRejection.MessageString m))
              /\ includes (toLowerCase m) "rate limit" = true
              /\ e = mkError (Some ("Failed after "
                                    ++ NilZero.string_of_int (Z.to_int n)
                                    ++ " attempts with error: " ++ m)%string)
     end.
Proof.
  intros n r c. subst c r. unfold AnyRejection.withExponentialBackoff.
  fold n.
  set (d := nullish (initialRetryDelay options) InitialRetryDelay).
  destruct (Z.to_nat n) as [|rem] eqn:E.
  - simpl. split; [lia|]. split; [intros k Hk; lia|]. split; [lia|reflexivity].
  - pose proof (any_attempts_shape T ceilMillis fn n d rem O
                  AnyRejection.ThrownNull [] ltac:(lia)) as H.
    cbv zeta in H. rewrite E in H.
    set (r := AnyRejection.attempts ceilMillis fn n d (S rem) 0
                AnyRejection.ThrownNull []) in *.
    destruct H as (Hc & Hfail & Hend).
    split; [lia|]. split.
    + intros k Hk. destruct (Hfail k) as (m & Hm); [lia|]. exists m. exact Hm.
    + unfold AnyRejection.ended in Hend.
      destruct (AnyRejection.outcome r) as [v|[|x| |e]].
      * split; [lia|exact Hend].
      * contradiction.
      * split; [lia|exact Hend].
      * split; [lia|exact Hend].
      * destruct Hend as (Hn & m & [Hm Hr] & ->).
        split; [congruence|]. split; [lia|]. exists m. auto.
Qed.

Lemma total_doubling (d : Z) (m a : nat) :
  total (map (fun k => d * 2 ^ Z.of_nat k) (seq a m))
  = d * (2 ^ Z.of_nat (a + m) - 2 ^ Z.of_nat a).
Proof.
  revert a; induction m as [|m IH]; intros a; simpl.
  - replace (a + 0)%nat with a by lia. lia.
  - change (fold_right Z.add 0 ?l) with (total l). rewrite IH.
    replace (Z.of_nat (S a + m)) with (Z.of_nat (a + S m)) by lia.
    replace (Z.of_nat (S a)) with (Z.of_nat a + 1) by lia.
    rewrite Z.pow_add_r by lia. lia.
Qed.

Lemma waitTimeOf_positive (ceilMillis : string -> Z) (d attempt : Z) (m : string) :
  0 < d -> 0 <= attempt -> (forall g, 0 <= ceilMillis g) ->
  0 < waitTimeOf ceilMillis d attempt m.
Proof.
  intros Hd Ha Hc. unfold waitTimeOf.
  assert (0 < d * 2 ^ attempt)
    by (apply Z.mul_pos_pos; [lia|apply Z.pow_pos_nonneg; lia]).
  destruct (waitMatch m) as [g|]; [|assumption].
  destruct (Z.eqb_spec (ceilMillis g) 0); [assumption|].
  specialize (Hc g). lia.
Qed.

(** X3.  When no failure message carries a wait interval the wrapper
    follows the exponential schedule: the delay after invocation [k] is
    [initialRetryDelay * 2 ^ k], and a run of [c] invocations has slept
    [initialRetryDelay * (2 ^ (c - 1) - 1)] milliseconds in all. *)
Theorem backoff_exponential_total {T : Type} (ceilMillis : string -> Z)
    (fn : nat -> settled T) (options : RetryOptions) :
  let d := nullish (initialRetryDelay options) InitialRetryDelay in
  let r := withExponentialBackoff ceilMillis fn options in
  (forall k e m, fn k = Failed e -> message e = Some m -> waitMatch m = None) ->
  sleeps r = map (fun k => d * 2 ^ Z.of_nat k) (seq 0 (calls r - 1))
  /\ total (sleeps r) = d * (2 ^ Z.of_nat (calls r - 1) - 1).
Proof.
  intros d r Hno.
  assert (Heq : sleeps r
                = map (fun k => d * 2 ^ Z.of_nat k) (seq 0 (calls r - 1))).
  { pose proof (backoff_run ceilMillis fn options) as H.
    cbv zeta in H. fold d in H. fold r in H.
    destruct H as [[Hn Hr]|(Hn & Hle & Hlt & Hsl & Hfail & _)].
    - rewrite Hr. reflexivity.
    - replace (calls r - 0 - 1)%nat with (calls r - 1)%nat in Hsl by lia.
      simpl app in Hsl. rewrite Hsl. apply map_ext_in. intros k Hk.
      apply in_seq in Hk. unfold delayOf.
      destruct (Hfail k) as (e & Ef & _); [lia|]. rewrite Ef.
      apply waitTimeOf_backoff. left.
      destruct (message e) as [m|] eqn:Em; [eauto|reflexivity]. }
  split; [exact Heq|]. rewrite Heq, total_doubling. simpl. lia.
Qed.

Lemma backoff_exponential_total_witness :
  total (sleeps (withExponentialBackoff ceilMillis_decimal
                   (fun _ => @Failed nat (mkError (Some "Rate limit exceeded"%string)))
                   noOptions))
  = 15000.
Proof.
  assert (Hno : forall (k : nat) (e : Error) (m : string),
             @Failed nat (mkError (Some "Rate limit exceeded"%string)) = Failed e ->
             message e = Some m -> waitMatch m = None)
    by (intros k e m [= <-] [= <-]; reflexivity).
  rewrite (proj2 (backoff_exponential_total ceilMillis_decimal
             (fun _ => @Failed nat (mkError (Some "Rate limit exceeded"%string)))
             noOptions Hno)).
  reflexivity.
Defined.

(** ** The regular expression of the wait interval *)

Lemma span_digits_spec (s : string) :
  all_digits (fst (span_digits s)) = true
  /\ s = (fst (span_digits s) ++ snd (span_digits s))%string
  /\ match snd (span_digits s) with
     | String c _ => is_digit c = false
     | EmptyString => True
     end.
Proof.
  induction s as [|c s IH]; simpl; [auto|].
  destruct (is_digit c) eqn:Ec.
  - destruct (span_digits s) as [d r]. simpl in *.
    destruct IH as (Hd & Hs & Hr). unfold all_digits in *. simpl.
    rewrite Ec, Hd. repeat split; [now f_equal|exact Hr].
  - simpl. repeat split. exact Ec.
Qed.

Lemma span_digits_all (d rest : string) :
  all_digits d = true ->
  match rest with String c _ => is_digit c = false | EmptyString => True end ->
  span_digits (d ++ rest) = (d, rest).
Proof.
  unfold all_digits. induction d as [|c d IH]; simpl; intros Hd Hr.
  - destruct rest as [|c r]; [reflexivity|]. simpl. now rewrite Hr.
  - apply andb_true_iff in Hd. destruct Hd as [Hc Hd].
    rewrite Hc. now rewrite IH.
Qed.

Lemma digits_value_nonneg (d : string) (acc : Z) :
  all_digits d = true -> 0 <= acc -> 0 <= digits_value acc d.
Proof.
  unfold all_digits. revert acc; induction d as [|c d IH]; intros acc Hd Ha;
    [assumption|].
  simpl in Hd. apply andb_true_iff in Hd. destruct Hd as [Hc Hd].
  change (digits_value acc (String c d))
    with (digits_value (10 * acc + (Z.of_nat (nat_of_ascii c) - 48)) d).
  apply IH; [assumption|].
  unfold is_digit in Hc. apply andb_true_iff in Hc. destruct Hc as [Hlo _].
  apply Nat.leb_le in Hlo. lia.
Qed.

Lemma ceilMillis_decimal_nonneg (g : string) : 0 <= ceilMillis_decimal g.
Proof.
  unfold ceilMillis_decimal.
  destruct (span_digits_spec g) as (Hint & _ & _).
  destruct (span_digits g) as [int_part rest]. simpl in Hint.
  assert (Hfrac : all_digits
            match rest with
            | String _ f => fst (span_digits f)
            | EmptyString => EmptyString
            end = true).
  { destruct rest as [|c f]; [reflexivity|]. apply span_digits_spec. }
  set (frac := match rest with
               | String _ f => fst (span_digits f)
               | EmptyString => EmptyString
               end) in *.
  pose proof (digits_value_nonneg int_part 0 Hint ltac:(lia)).
  pose proof (digits_value_nonneg frac 0 Hfrac ltac:(lia)).
  assert (0 < 10 ^ Z.of_nat (String.length frac))
    by (apply Z.pow_pos_nonneg; lia).
  assert (0 <= (digits_value 0 frac * 1000
                + 10 ^ Z.of_nat (String.length frac) - 1)
               / 10 ^ Z.of_nat (String.length frac))
    by (apply Z.div_pos; lia).
  lia.
Qed.

(** The conversion of the runtime is never negative either. *)
Lemma binary_round_aux_unsigned (mx ex : Z) (lx : location) :
  unsigned (binary_round_aux 53 1024 false mx ex lx).
Proof.
  unfold binary_round_aux.
  destruct (shr_fexp 53 1024 mx ex lx) as [mrs' e'].
  destruct (shr_fexp 53 1024 _ e' loc_Exact) as [mrs'' e''].
  destruct (shr_m mrs''); simpl; auto.
  destruct (_ <=? _); simpl; auto.
Qed.

Lemma parseFloat_unsigned (g : string) : unsigned (parseFloat g).
Proof.
  unfold parseFloat. destruct (span_digits g) as [int_part rest].
  destruct (digits_value 0 _) as [|num|num]; try exact eq_refl.
  destruct (10 ^ _) as [|den|den]; try exact eq_refl.
  unfold SFdiv. destruct (SFdiv_core_binary 53 1024 _ _ _ _) as [[mz ez] lz].
  apply binary_round_aux_unsigned.
Qed.

Lemma Math_ceil_unsigned (x : spec_float) : unsigned x -> 0 <= Math_ceil x.
Proof.
  destruct x as [s|s| |s m e]; cbv beta iota delta [Math_ceil unsigned];
    try lia.
  - intros ->. apply Z.pow_nonneg. lia.
  - intros ->. cbv zeta. destruct (Z.leb_spec 0 e).
    + apply Z.mul_nonneg_nonneg; [lia|apply Z.pow_nonneg; lia].
    + assert (0 < 2 ^ (- e)) by (apply Z.pow_pos_nonneg; lia).
      assert (- Z.pos m / 2 ^ (- e) < 0) by (apply Z.div_lt_upper_bound; lia).
      lia.
Qed.

Lemma ceilMillis_binary64_nonneg (g : string) : 0 <= ceilMillis_binary64 g.
Proof.
  unfold ceilMillis_binary64. apply Math_ceil_unsigned.
  pose proof (parseFloat_unsigned g) as H.
  change (binary64_of 1000) with (S754_finite false 8796093022208000 (-43)).
  destruct (parseFloat g) as [s|s| |s m e]; simpl in *; subst;
    try exact eq_refl; try exact I.
  apply binary_round_aux_unsigned.
Qed.

(** X4.  With a positive initial delay the wrapper never sleeps for
    zero or a negative time, whatever the messages say (the interval
    read from a message is never negative). *)
Theorem backoff_sleeps_positive {T : Type} (ceilMillis : string -> Z)
    (fn : nat -> settled T) (options : RetryOptions) :
  0 < nullish (initialRetryDelay options) InitialRetryDelay ->
  (forall g, 0 <= ceilMillis g) ->
  forall w, In w (sleeps (withExponentialBackoff ceilMillis fn options)) ->
            0 < w.
Proof.
  intros Hd Hc w Hw.
  pose proof (backoff_run ceilMillis fn options) as H. cbv zeta in H.
  destruct H as [[_ Hr]|(_ & _ & Hlt & Hsl & Hfail & _)].
  - rewrite Hr in Hw. destruct Hw.
  - rewrite Hsl in Hw. simpl app in Hw. apply in_map_iff in Hw.
    destruct Hw as (k & <- & Hk). apply in_seq in Hk.
    unfold delayOf. destruct (Hfail k) as (e & -> & _); [lia|].
    apply waitTimeOf_positive; [assumption|lia|assumption].
Qed.

Lemma backoff_sleeps_positive_witness : 0 < 1500.
Proof.
  apply (backoff_sleeps_positive ceilMillis_decimal sampleOperation
           sampleOptions).
  - reflexivity.
  - exact ceilMillis_decimal_nonneg.
  - vm_compute. left. reflexivity.
Defined.

(** X5.  A generation call through the provider's wrapper invokes the
    provider at most five times and sleeps at most four times, whatever
    the provider does; when no failure message carries a wait interval
    it has slept at most fifteen seconds in all. *)
Theorem doGenerate_bounded {T : Type} (ceilMillis : string -> Z)
    (originalDoGenerate : nat -> settled T) :
  let r := doGenerate ceilMillis originalDoGenerate in
  (calls r <= 5)%nat
  /\ (List.length (sleeps r) <= 4)%nat
  /\ ((forall k e m, originalDoGenerate k = Failed e -> message e = Some m ->
                     waitMatch m = None) ->
      0 <= total (sleeps r) <= 15000).
Proof.
  intros r. subst r. unfold doGenerate.
  pose proof (backoff_run ceilMillis originalDoGenerate noOptions) as H.
  cbv zeta in H. simpl nullish in H.
  set (r := withExponentialBackoff ceilMillis originalDoGenerate noOptions) in *.
  destruct H as [[Hn _]|(_ & Hle & Hlt & Hsl & Hfail & _)];
    [unfold MaxRetries in Hn; lia|].
  change (Z.to_nat MaxRetries) with 5%nat in Hle.
  replace (calls r - 0 - 1)%nat with (calls r - 1)%nat in Hsl by lia.
  simpl app in Hsl.
  split; [exact Hle|]. split.
  - rewrite Hsl, length_map, length_seq. lia.
  - intros Hno.
    assert (Heq : sleeps r
                  = map (fun k => InitialRetryDelay * 2 ^ Z.of_nat k)
                        (seq 0 (calls r - 1))).
    { rewrite Hsl. apply map_ext_in. intros k Hk. apply in_seq in Hk.
      unfold delayOf. destruct (Hfail k) as (e & Ef & _); [lia|]. rewrite Ef.
      apply waitTimeOf_backoff. left.
      destruct (message e) as [m|] eqn:Em; [eauto|reflexivity]. }
    rewrite Heq, total_doubling. unfold InitialRetryDelay. simpl Z.of_nat.
    assert (Hc : (calls r - 1 = 0 \/ calls r - 1 = 1 \/ calls r - 1 = 2
                  \/ calls r - 1 = 3 \/ calls r - 1 = 4)%nat) by lia.
    destruct Hc as [->|[->|[->|[->| ->]]]]; simpl; lia.
Qed.

Lemma doGenerate_bounded_witness :
  0 <= total (sleeps (doGenerate ceilMillis_decimal
                        (fun _ => @Failed nat
                                    (mkError (Some "Rate limit exceeded"%string)))))
  <= 15000.
Proof.
  refine (proj2 (proj2 (doGenerate_bounded ceilMillis_decimal
            (fun _ => @Failed nat (mkError (Some "Rate limit exceeded"%string)))))
            _).
  intros k e m [= <-] [= <-]. reflexivity.
Defined.

(** ** Substrings *)

Lemma toLowerCase_app (a b : string) :
  toLowerCase (a ++ b) = (toLowerCase a ++ toLowerCase b)%string.
Proof. induction a as [|c a IH]; simpl; [reflexivity|now rewrite IH]. Qed.

Lemma prefix_empty (s : string) : prefix "" s = true.
Proof. destruct s; reflexivity. Qed.

Lemma prefix_app (x a b : string) :
  prefix x a = true -> prefix x (a ++ b) = true.
Proof.
  revert a; induction x as [|c x IH]; intros a;
    [intros _; apply prefix_empty|].
  destruct a as [|c' a]; simpl; [intros H; discriminate H|].
  destruct (ascii_dec c c'); [apply IH|intros H; discriminate H].
Qed.

Lemma prefix_refl (x : string) : prefix x x = true.
Proof.
  induction x as [|c x IH]; simpl; [reflexivity|].
  destruct (ascii_dec c c); [assumption|congruence].
Qed.

Lemma includes_here (hay needle : string) :
  prefix needle hay = true -> includes hay needle = true.
Proof. intros H. destruct hay; cbn [includes]; rewrite H; reflexivity. Qed.

Lemma includes_app_l (a b x : string) :
  includes a x = true -> includes (a ++ b) x = true.
Proof.
  induction a as [|c a IH]; cbn [includes append].
  - rewrite orb_false_r. intros H. apply includes_here.
    apply (prefix_app x "" b H).
  - intros H. apply orb_true_iff in H. apply orb_true_iff.
    destruct H as [H|H]; [left|right; auto].
    apply (prefix_app x (String c a) b H).
Qed.

Lemma includes_app_r (a b x : string) :
  includes b x = true -> includes (a ++ b) x = true.
Proof.
  intros H. induction a as [|c a IH]; cbn [includes append]; [assumption|].
  rewrite IH. apply orb_true_r.
Qed.

Lemma includes_mid (a x b : string) : includes (a ++ x ++ b) x = true.
Proof.
  apply includes_app_r, includes_app_l, includes_here, prefix_refl.
Qed.

(** X6.  The classification ignores case and position: a message that
    has the words "rate limit" anywhere, in any mix of upper and lower
    case, is a rate-limit failure; an error without a message is not. *)
Theorem isRateLimit_any_case (before marker after : string) :
  toLowerCase marker = "rate limit"%string ->
  isRateLimit (mkError (Some (before ++ marker ++ after)%string)) = true
  /\ isRateLimit (mkError None) = false.
Proof.
  intros H. split; [|reflexivity]. unfold isRateLimit. simpl.
  rewrite !toLowerCase_app, H. apply includes_mid.
Qed.

Lemma isRateLimit_any_case_witness :
  isRateLimit (mkError (Some ("429 " ++ "Rate Limit" ++ " reached for gpt-4o")%string))
  = true.
Proof.
  exact (proj1 (isRateLimit_any_case "429 " "Rate Limit" " reached for gpt-4o"
                  eq_refl)).
Defined.

(** X7.  The error thrown once the attempts are used up is itself
    classified as a rate-limit failure, its message ending in the
    message of the last failure: a caller that wraps the wrapped
    operation again retries it again. *)
Theorem exhausted_is_rate_limit (n : Z) (lastError : Error) :
  isRateLimit lastError = true ->
  isRateLimit (exhausted n lastError) = true.
Proof.
  unfold isRateLimit, exhausted.
  destruct (message lastError) as [m|]; [|discriminate].
  intros H. cbn [message nullish].
  rewrite !toLowerCase_app. now do 3 apply includes_app_r.
Qed.

Lemma exhausted_is_rate_limit_witness :
  isRateLimit (exhausted 5 (mkError (Some "Rate limit exceeded"%string))) = true.
Proof.
  apply (exhausted_is_rate_limit 5 (mkError (Some "Rate limit exceeded"%string))).
  reflexivity.
Defined.

(** ** The wait interval in a message *)

Lemma match_here_shape (s g : string) :
  match_here s = Some g ->
  exists whole frac,
    all_digits whole = true /\ whole <> ""%string /\ all_digits frac = true
    /\ (g = whole \/ g = (whole ++ "." ++ frac)%string).
Proof.
  unfold match_here.
  destruct (strip_ci "try again in " s) as [r|]; [|discriminate].
  destruct (span_digits_spec r) as (Hd1 & _ & _).
  destruct (span_digits r) as [d1 r1]. simpl in Hd1.
  destruct (is_empty d1) eqn:Ee; [discriminate|].
  apply is_empty_false in Ee.
  assert (Hplain : (if starts_with_s r1 then Some d1 else None) = Some g ->
                   exists whole frac,
                     all_digits whole = true /\ whole <> ""%string
                     /\ all_digits frac = true
                     /\ (g = whole \/ g = (whole ++ "." ++ frac)%string)).
  { destruct (starts_with_s r1); [|discriminate]. intros [= <-].
    exists d1, ""%string. auto. }
  destruct r1 as [|c r2]; [exact Hplain|].
  destruct (Ascii.eqb_spec c "."%char) as [->|Hc].
  - destruct (span_digits_spec r2) as (Hd2 & _ & _).
    destruct (span_digits r2) as [d2 r3]. simpl in Hd2.
    destruct (starts_with_s r3); [|discriminate]. intros [= <-].
    exists d1, d2. auto.
  - intros H. apply Hplain.
    destruct c as [[] [] [] [] [] [] [] []]; try exact H.
    now contradiction Hc.
Qed.

(** X8.  Whatever the message, the text the catch block hands to
    [parseFloat] is a decimal numeral: one digit or more, then possibly
    a dot followed by further digits. *)
Theorem waitMatch_group_is_decimal (m g : string) :
  waitMatch m = Some g ->
  exists whole frac,
    all_digits whole = true /\ whole <> ""%string /\ all_digits frac = true
    /\ (g = whole \/ g = (whole ++ "." ++ frac)%string).
Proof.
  induction m as [|c m IH]; cbn [waitMatch].
  - discriminate.
  - destruct (match_here (String c m)) as [g'|] eqn:E; [|exact IH].
    intros [= <-]. now apply (match_here_shape (String c m)).
Qed.

Lemma waitMatch_group_is_decimal_witness :
  exists whole frac,
    all_digits whole = true /\ whole <> ""%string /\ all_digits frac = true
    /\ ("1.5"%string = whole \/ "1.5"%string = (whole ++ "." ++ frac)%string).
Proof.
  apply (waitMatch_group_is_decimal
           "Rate limit reached. Please try again in 1.5s."%string "1.5"%string).
  reflexivity.
Defined.

Lemma waitMatch_after (before s g : string) :
  waitMatch s = Some g -> exists g', waitMatch (before ++ s) = Some g'.
Proof.
  intros H. induction before as [|c before IH]; [eauto|].
  cbn [append waitMatch].
  destruct (match_here (String c (before ++ s))); eauto.
Qed.

Lemma waitMatch_front (s g : string) :
  match_here s = Some g -> waitMatch s = Some g.
Proof. intros H. destruct s; cbn [waitMatch]; now rewrite H. Qed.

Lemma strip_ci_literal (s : string) :
  strip_ci "try again in " ("try again in " ++ s) = Some s.
Proof. reflexivity. Qed.

Lemma match_here_seconds (whole rest : string) :
  all_digits whole = true -> whole <> ""%string ->
  match_here ("try again in " ++ whole ++ "s" ++ rest) = Some whole.
Proof.
  intros Hd Hne. unfold match_here. rewrite strip_ci_literal.
  rewrite (span_digits_all whole ("s" ++ rest)) by (auto; reflexivity).
  apply is_empty_false in Hne. rewrite Hne. reflexivity.
Qed.

Lemma match_here_fraction (whole frac rest : string) :
  all_digits whole = true -> whole <> ""%string -> all_digits frac = true ->
  match_here ("try again in " ++ whole ++ "." ++ frac ++ "s" ++ rest)
  = Some (whole ++ "." ++ frac)%string.
Proof.
  intros Hd Hne Hf. unfold match_here. rewrite strip_ci_literal.
  rewrite (span_digits_all whole ("." ++ frac ++ "s" ++ rest))
    by (auto; reflexivity).
  apply is_empty_false in Hne. rewrite Hne.
  cbn [append].
  rewrite (span_digits_all frac (String "s" rest)) by (auto; reflexivity).
  reflexivity.
Qed.

(** X9.  An interval written in seconds is read back: at the front of
    a message, "try again in" followed by a numeral and [s] yields that
    numeral, with or without a fraction; after any other text, an
    interval is still found. *)
Theorem waitMatch_reads_seconds (before whole frac rest : string) :
  all_digits whole = true -> whole <> ""%string -> all_digits frac = true ->
  waitMatch ("try again in " ++ whole ++ "s" ++ rest) = Some whole
  /\ waitMatch ("try again in " ++ whole ++ "." ++ frac ++ "s" ++ rest)
     = Some (whole ++ "." ++ frac)%string
  /\ exists g,
       waitMatch (before ++ "try again in " ++ whole ++ "s" ++ rest) = Some g.
Proof.
  intros Hd Hne Hf.
  assert (H1 := waitMatch_front _ _ (match_here_seconds whole rest Hd Hne)).
  split; [exact H1|].
  split; [apply waitMatch_front; now apply match_here_fraction|].
  now apply (waitMatch_after before _ whole).
Qed.

Lemma waitMatch_reads_seconds_witness :
  waitMatch ("try again in " ++ "20" ++ "s" ++ ". Visit the dashboard.")
  = Some "20"%string.
Proof.
  apply (waitMatch_reads_seconds "Rate limit reached. " "20" "5"
           ". Visit the dashboard."); [reflexivity|discriminate|reflexivity].
Defined.

Lemma match_here_other_letter (c : ascii) (s : string) :
  Ascii.eqb (lower "t") (lower c) = false -> match_here (String c s) = None.
Proof.
  intros H. unfold match_here. cbn [strip_ci]. now rewrite H.
Qed.

Lemma waitMatch_skip (c : ascii) (s : string) :
  match_here (String c s) = None -> waitMatch (String c s) = waitMatch s.
Proof. intros H. cbn [waitMatch]. now rewrite H. Qed.

Lemma digit_is_not_t (c : ascii) :
  is_digit c = true -> Ascii.eqb (lower "t") (lower c) = false.
Proof.
  destruct c as [[] [] [] [] [] [] [] []]; intros H;
    try discriminate H; reflexivity.
Qed.

Lemma waitMatch_skips_digits (d s : string) :
  all_digits d = true -> waitMatch (d ++ s) = waitMatch s.
Proof.
  unfold all_digits. induction d as [|c d IH]; simpl forallb; intros H;
    [reflexivity|].
  apply andb_true_iff in H. destruct H as [Hc Hd].
  cbn [append]. rewrite waitMatch_skip; [now apply IH|].
  now apply match_here_other_letter, digit_is_not_t.
Qed.

(** X10.  An interval written in milliseconds is not read: where a
    message says "try again in" followed by digits and [ms], the
    expression does not match, and the search goes on in the text that
    follows; a message with nothing else to offer gets the exponential
    delay. *)
Theorem waitMatch_skips_milliseconds (ceilMillis : string -> Z)
    (digits rest : string) (d attempt : Z) :
  all_digits digits = true ->
  waitMatch ("try again in " ++ digits ++ "ms" ++ rest) = waitMatch rest
  /\ waitTimeOf ceilMillis d attempt ("try again in " ++ digits ++ "ms.")
     = d * 2 ^ attempt.
Proof.
  intros Hd.
  assert (Hfront : forall rest',
            match_here ("try again in " ++ digits ++ "ms" ++ rest') = None).
  { intros rest'. unfold match_here. rewrite strip_ci_literal.
    rewrite (span_digits_all digits ("ms" ++ rest')) by (auto; reflexivity).
    destruct (is_empty digits); reflexivity. }
  assert (Hall : forall rest',
            waitMatch ("try again in " ++ digits ++ "ms" ++ rest')
            = waitMatch rest').
  { intros rest'.
    change ("try again in " ++ digits ++ "ms" ++ rest')%string
      with (String "t" ("ry again in " ++ digits ++ "ms" ++ rest')).
    rewrite waitMatch_skip by exact (Hfront rest').
    cbn [append].
    do 12 (rewrite waitMatch_skip
             by (apply match_here_other_letter; reflexivity)).
    rewrite waitMatch_skips_digits by assumption.
    cbn [append].
    do 2 (rewrite waitMatch_skip
            by (apply match_here_other_letter; reflexivity)).
    reflexivity. }
  split; [apply Hall|].
  apply waitTimeOf_backoff. left. exact (Hall "."%string).
Qed.

Lemma waitMatch_skips_milliseconds_witness :
  waitTimeOf ceilMillis_decimal 1000 2 ("try again in " ++ "86" ++ "ms.")
  = 1000 * 2 ^ 2.
Proof.
  apply (proj2 (waitMatch_skips_milliseconds ceilMillis_decimal "86" "" 1000 2
                  eq_refl)).
Defined.

(** The same on a message as the service words it. *)
Example waitMatch_openai_milliseconds :
  waitMatch "Rate limit reached for gpt-4o in organization org-1 on tokens per min (TPM): Limit 30000, Used 29500, Requested 900. Please try again in 86ms. Visit the dashboard for details."
  = None.
Proof. vm_compute. reflexivity. Qed.

(** ** [trimPrompt]: lengths *)

(** X11.  A text of at most 140 code units is returned as it is,
    whatever the budget, the tokenizer and the splitter: over budget,
    its target length is below the floor and the cut at 140 keeps all
    of it. *)
Theorem trimPrompt_short_text {token : Type} (encode : string -> list token)
    (splitText : Z -> string -> list string) (text : string) (budget : Z)
    (fuel : nat) :
  (String.length text <= 140)%nat ->
  trimPrompt encode splitText (S fuel) text budget = Some text.
Proof.
  intros Hlen. simpl. unfold trimPrompt_body. cbv zeta.
  destruct (is_empty text) eqn:Ee.
  - apply is_empty_true in Ee. now subst.
  - destruct (Z.leb_spec (tokenCount encode text) budget); [reflexivity|].
    unfold MinChunkSize.
    destruct (Z.ltb_spec
                (Z.of_nat (String.length text)
                 - (tokenCount encode text - budget) * 3) 140); [|lia].
    f_equal. unfold slice0. destruct (Z.ltb_spec 140 0); [lia|].
    apply take_all. lia.
Qed.

Lemma trimPrompt_short_text_witness :
  trimPrompt unitTokens sliceSplitter 1 "a short prompt" 3
  = Some "a short prompt"%string.
Proof.
  apply (trimPrompt_short_text unitTokens sliceSplitter "a short prompt" 3 0).
  simpl. lia.
Defined.

Lemma body_return_not_longer {token : Type} (encode : string -> list token)
    (splitText : Z -> string -> list string) (q : string) (c : Z) (r : string) :
  trimPrompt_body encode splitText q c = Return r ->
  (String.length r <= String.length q)%nat
  /\ (tokenCount encode r <= c \/ (String.length r <= 140)%nat)
  /\ (c < tokenCount encode q -> (140 < String.length q)%nat ->
      (String.length r < String.length q)%nat).
Proof.
  intros H.
  destruct (body_return _ _ _ _ _ _ H)
    as [[-> ->]|[(Hq & Ht & ->)|(Hq & Ht & Hk & ->)]].
  - simpl. split; [lia|]. split; [right; lia|lia].
  - split; [lia|]. split; [now left|lia].
  - pose proof (length_slice0 MinChunkSize q ltac:(unfold MinChunkSize; lia)).
    unfold MinChunkSize in *. split; [lia|]. split; [right; lia|lia].
Qed.

Lemma trimPromptOf_bounds {token : Type} (encode : string -> list token)
    (splitText : Z -> string -> list string) :
  splitter_bounded splitText ->
  forall (text : string) (budget : Z),
    let r := trimPromptOf encode splitText text budget in
    (String.length r <= String.length text)%nat
    /\ (tokenCount encode r <= budget \/ (String.length r <= 140)%nat)
    /\ (budget < tokenCount encode text -> (140 < String.length text)%nat ->
        (String.length r < String.length text)%nat).
Proof.
  intros Hb text budget r. subst r. unfold trimPromptOf.
  destruct (trimPrompt_enough_fuel _ encode splitText Hb
              (S (String.length text)) text budget) as [r Hr]; [lia|].
  rewrite Hr.
  destruct (trimPrompt_visits _ _ _ _ _ _ _ Hr) as (q & Hv & Hq).
  pose proof (visits_not_longer _ encode splitText Hb budget text q Hv) as Hle.
  destruct (body_return_not_longer encode splitText q budget r Hq)
    as (Hrq & Hbud & Hstrict).
  split; [lia|]. split; [exact Hbud|].
  intros Hover Hlong.
  inversion Hv as [p Hp|p q' r' Hstep Hrest]; subst.
  - now apply Hstrict.
  - apply (body_recurse_shorter _ encode splitText Hb) in Hstep.
    pose proof (visits_not_longer _ encode splitText Hb budget q' q Hrest).
    lia.
Qed.


(** X12.  With a splitter whose first chunk is no longer than the
    text, the output of [trimPrompt] is never longer than its input, is
    strictly shorter when the input is over budget and longer than 140
    code units, and, if it is still over budget, has at most 140 code
    units. *)
Theorem trimPrompt_not_longer {token : Type} (encode : string -> list token)
    (splitText : Z -> string -> list string) :
  splitter_bounded splitText ->
  forall (text : string) (budget : Z),
    let r := trimPromptOf encode splitText text budget in
    (String.length r <= String.length text)%nat
    /\ (tokenCount encode r <= budget \/ (String.length r <= 140)%nat)
    /\ (budget < tokenCount encode text -> (140 < String.length text)%nat ->
        (String.length r < String.length text)%nat).
Proof. exact (trimPromptOf_bounds encode splitText). Qed.

Lemma trimPrompt_not_longer_witness :
  (String.length (trimPromptOf unitTokens sliceSplitter (replicate 300 "a") 250)
   <= String.length (replicate 300 "a"))%nat.
Proof.
  exact (proj1 (trimPrompt_not_longer unitTokens sliceSplitter
                  sliceSplitter_bounded (replicate 300 "a") 250)).
Defined.

Lemma prefix_take (n : nat) (s : string) : prefix (take n s) s = true.
Proof.
  revert s; induction n as [|n IH]; intros [|c s]; simpl; try reflexivity.
  destruct (ascii_dec c c); [apply IH|congruence].
Qed.

Lemma prefix_slice0 (e : Z) (s : string) : prefix (slice0 e s) s = true.
Proof. unfold slice0. destruct (e <? 0); apply prefix_take. Qed.

Lemma prefix_trans (a b c : string) :
  prefix a b = true -> prefix b c = true -> prefix a c = true.
Proof.
  revert b c; induction a as [|x a IH]; intros b c Hab Hbc;
    [apply prefix_empty|].
  destruct b as [|y b]; [discriminate Hab|].
  destruct c as [|z c]; [discriminate Hbc|].
  simpl in *.
  destruct (ascii_dec x y) as [->|]; [|discriminate Hab].
  destruct (ascii_dec y z) as [->|]; [|discriminate Hbc].
  now apply (IH b c).
Qed.

Lemma prefix_length (a b : string) :
  prefix a b = true -> (String.length a <= String.length b)%nat.
Proof.
  revert b; induction a as [|x a IH]; intros b H; simpl; [lia|].
  destruct b as [|y b]; [discriminate H|]. simpl in *.
  destruct (ascii_dec x y); [|discriminate H].
  specialize (IH b H). lia.
Qed.

Lemma splitter_prefix_bounded (splitText : Z -> string -> list string) :
  splitter_prefix splitText -> splitter_bounded splitText.
Proof. intros H n t _. apply prefix_length, H. Qed.

Lemma sliceSplitter_prefix : splitter_prefix sliceSplitter.
Proof.
  intros n t. unfold sliceSplitter.
  destruct (String.length t) as [|f]; simpl; [apply prefix_empty|].
  destruct (is_empty t); simpl; [apply prefix_empty|apply prefix_take].
Qed.

Lemma visits_prefix {token : Type} (encode : string -> list token)
    (splitText : Z -> string -> list string) (c : Z) (p q : string) :
  splitter_prefix splitText ->
  visits encode splitText c p q -> prefix q p = true.
Proof.
  intros Hp. induction 1 as [p|p q r E _ IH]; [apply prefix_refl|].
  apply (prefix_trans r q p IH).
  destruct (body_recurse _ _ _ _ _ _ E) as (_ & _ & _ & [[_ ->]|[_ ->]]);
    [apply prefix_slice0|apply Hp].
Qed.

(** X13.  [trimPrompt] itself only ever cuts at the front: when the
    first chunk of the splitter is the beginning of the text, so is the
    output, nothing reordered and nothing added. *)
Theorem trimPrompt_prefix {token : Type} (encode : string -> list token)
    (splitText : Z -> string -> list string) :
  splitter_prefix splitText ->
  forall (text : string) (budget : Z),
    prefix (trimPromptOf encode splitText text budget) text = true.
Proof.
  intros Hp text budget. unfold trimPromptOf.
  destruct (trimPrompt_enough_fuel _ encode splitText
              (splitter_prefix_bounded _ Hp)
              (S (String.length text)) text budget) as [r Hr]; [lia|].
  rewrite Hr.
  destruct (trimPrompt_visits _ _ _ _ _ _ _ Hr) as (q & Hv & Hq).
  apply (prefix_trans r q text); [|now apply (visits_prefix encode splitText budget)].
  destruct (body_return _ _ _ _ _ _ Hq)
    as [[-> ->]|[(_ & _ & ->)|(_ & _ & _ & ->)]];
    [reflexivity|apply prefix_refl|apply prefix_slice0].
Qed.

Lemma trimPrompt_prefix_witness :
  prefix (trimPromptOf unitTokens sliceSplitter (replicate 300 "a") 250)
         (replicate 300 "a")
  = true.
Proof.
  exact (trimPrompt_prefix unitTokens sliceSplitter sliceSplitter_prefix
           (replicate 300 "a") 250).
Defined.

(** ** [processSerpResult] *)

Lemma compact_In (l : list (option string)) (s : string) :
  In s (compact l) <-> In (Some s) l /\ s <> ""%string.
Proof.
  induction l as [|[x|] l IH]; simpl.
  - tauto.
  - destruct (is_empty x) eqn:E.
    + apply is_empty_true in E. subst x. rewrite IH.
      intuition congruence.
    + apply is_empty_false in E. simpl. rewrite IH.
      intuition congruence.
  - rewrite IH. intuition congruence.
Qed.

Lemma compact_length (l : list (option string)) :
  (List.length (compact l) <= List.length l)%nat.
Proof.
  induction l as [|[x|] l IH]; simpl; [lia| |lia].
  destruct (is_empty x); simpl; lia.
Qed.

Lemma compact_markdowns (items : list SearchItem) :
  compact (map markdown items)
  = map (fun item => nullish (markdown item) ""%string)
        (filter hasMarkdown items).
Proof.
  induction items as [|item items IH]; simpl; [reflexivity|].
  unfold hasMarkdown at 1.
  destruct (markdown item) as [text|] eqn:E; [|assumption].
  destruct (is_empty text); simpl; [assumption|].
  rewrite E. simpl. now f_equal.
Qed.

(** X14.  What [processSerpResult] hands to the text-generation
    service: exactly one content per document that has a non-empty
    markdown, in the order of the documents, and nothing for the other
    documents; each content is the trimmed markdown of its document
    and, with a splitter whose first chunk is no longer than the text,
    is either within 25000 tokens or cut down to at most 140 code
    units, and never longer than the markdown it comes from. *)
Theorem processSerpResult_contents {token : Type} (encode : string -> list token)
    (splitText : Z -> string -> list string)
    (generateFindings :
       position -> string -> list string -> Z -> Z -> settled Findings)
    (here : position) (q : string) (result : SearchResponse)
    (numLearnings numFollowUpQuestions : Z) :
  let trim := trimPromptOf encode splitText in
  processSerpResult generateFindings trim here q result
    numLearnings numFollowUpQuestions
  = generateFindings here q (serpContents trim result)
      numLearnings numFollowUpQuestions
  /\ serpContents trim result
     = map (fun item => trim (nullish (markdown item) ""%string) 25000)
           (filter hasMarkdown (data result))
  /\ List.length (serpContents trim result)
     = List.length (filter hasMarkdown (data result))
  /\ (forall item text,
        In item (data result) -> markdown item = Some text ->
        text <> ""%string -> In (trim text 25000) (serpContents trim result))
  /\ (List.length (serpContents trim result) <= List.length (data result))%nat
  /\ (splitter_bounded splitText ->
      forall content, In content (serpContents trim result) ->
        (tokenCount encode content <= 25000
         \/ (String.length content <= 140)%nat)
        /\ exists item text,
             In item (data result) /\ markdown item = Some text
             /\ text <> ""%string /\ content = trim text 25000
             /\ (String.length content <= String.length text)%nat).
Proof.
  intros trim. split; [reflexivity|].
  assert (Heq : serpContents trim result
                = map (fun item => trim (nullish (markdown item) ""%string) 25000)
                      (filter hasMarkdown (data result))).
  { unfold serpContents. rewrite compact_markdowns. now rewrite map_map. }
  split; [exact Heq|]. split; [now rewrite Heq, length_map|].
  split; [|split].
  - intros item text Hin Hmd Hne. unfold serpContents.
    apply (in_map (fun content => trim content 25000)).
    apply compact_In. split; [|assumption].
    rewrite <- Hmd. now apply in_map.
  - unfold serpContents. rewrite length_map.
    rewrite <- (length_map markdown (data result)). apply compact_length.
  - intros Hb content Hin. unfold serpContents in Hin.
    apply in_map_iff in Hin. destruct Hin as (text & <- & Hin).
    apply compact_In in Hin. destruct Hin as [Hin Hne].
    apply in_map_iff in Hin. destruct Hin as (item & Hmd & Hitem).
    pose proof (trimPromptOf_bounds encode splitText Hb text 25000)
      as (Hlen & Hbud & _).
    split; [exact Hbud|].
    exists item, text. auto.
Qed.

Lemma processSerpResult_contents_witness :
  serpContents (trimPromptOf unitTokens sliceSplitter)
    {| data := [ {| url := Some "https://example.org/a"%string;
                    markdown := Some "text"%string |};
                 {| url := Some "https://example.org/b"%string;
                    markdown := None |};
                 {| url := None; markdown := Some ""%string |};
                 {| url := None; markdown := Some "more text"%string |} ] |}
  = ["text"%string; "more text"%string].
Proof.
  exact (proj1 (proj2 (processSerpResult_contents unitTokens sliceSplitter
           sampleFindings [] "q"%string
           {| data := [ {| url := Some "https://example.org/a"%string;
                           markdown := Some "text"%string |};
                        {| url := Some "https://example.org/b"%string;
                           markdown := None |};
                        {| url := None; markdown := Some ""%string |};
                        {| url := None; markdown := Some "more text"%string |} ] |}
           3 2))).
Defined.

(** ** [writeFinalReport] *)

Lemma includes_concat (sep x : string) (l : list string) :
  In x l -> includes (String.concat sep l) x = true.
Proof.
  induction l as [|y l IH]; [intros []|].
  intros Hin. destruct l as [|z l].
  - destruct Hin as [->|[]]. simpl. apply includes_here, prefix_refl.
  - change (String.concat sep (y :: z :: l))
      with (y ++ sep ++ String.concat sep (z :: l))%string.
    destruct Hin as [->|Hin].
    + apply includes_app_l, includes_here, prefix_refl.
    + now apply includes_app_r, includes_app_r, IH.
Qed.

(** X15.  [writeFinalReport] fails exactly when the report generation
    fails.  Otherwise the report starts with the generated markdown and
    ends with a "## Sources" section, which is there even without URLs
    and has a line for every visited URL.  The learnings given to the
    generation are within 150000 tokens, or cut to at most 140 code
    units. *)
Theorem writeFinalReport_sources {token : Type} (encode : string -> list token)
    (splitText : Z -> string -> list string)
    (generateReport : string -> string -> settled string)
    (prompt : string) (learnings visitedUrls : list string) :
  splitter_bounded splitText ->
  let trim := trimPromptOf encode splitText in
  let given := learningsStringOf trim learnings in
  (tokenCount encode given <= 150000 \/ (String.length given <= 140)%nat)
  /\ match writeFinalReport generateReport trim prompt learnings visitedUrls with
     | Failed e => generateReport prompt given = Failed e
     | Fulfilled report =>
         exists reportMarkdown,
           generateReport prompt given = Fulfilled reportMarkdown
           /\ report = (reportMarkdown ++ urlsSection visitedUrls)%string
           /\ prefix reportMarkdown report = true
           /\ includes report "## Sources" = true
           /\ forall u, In u visitedUrls ->
                        includes report ("- " ++ u) = true
     end.
Proof.
  intros Hb trim given. split.
  - apply (trimPromptOf_bounds encode splitText Hb).
  - unfold writeFinalReport. fold trim given.
    destruct (generateReport prompt given) as [md|e]; [|reflexivity].
    exists md. split; [reflexivity|]. split; [reflexivity|].
    split; [apply prefix_app, prefix_refl|].
    split.
    + apply includes_app_r. unfold urlsSection.
      do 2 apply includes_app_r. apply includes_app_l.
      apply includes_here, prefix_refl.
    + intros u Hu. apply includes_app_r. unfold urlsSection.
      do 4 apply includes_app_r.
      apply includes_concat. apply in_map_iff. eauto.
Qed.

Lemma writeFinalReport_sources_witness :
  tokenCount unitTokens
    (learningsStringOf (trimPromptOf unitTokens sliceSplitter)
       ["batteries store energy"%string])
  <= 150000
  \/ (String.length
        (learningsStringOf (trimPromptOf unitTokens sliceSplitter)
           ["batteries store energy"%string])
      <= 140)%nat.
Proof.
  exact (proj1 (writeFinalReport_sources unitTokens sliceSplitter
           (fun _ _ => Fulfilled "# Report"%string) "batteries"%string
           ["batteries store energy"%string]
           ["https://example.org/a"%string] sliceSplitter_bounded)).
Defined.

Example writeFinalReport_sample :
  writeFinalReport (fun _ _ => Fulfilled "# Report"%string)
    (trimPromptOf unitTokens sliceSplitter) "batteries"
    ["batteries store energy"%string]
    ["https://example.org/a"%string; "https://example.org/b"%string]
  = Fulfilled
      (String.concat newline
         ["# Report"; ""; "## Sources"; "";
          "- https://example.org/a"; "- https://example.org/b"]%string).
Proof. vm_compute. reflexivity. Qed.

(** ** [generateSerpQueries] and the breadth *)

Lemma map_from_length {A B : Type} (f : nat -> A -> B) (l : list A) (i : nat) :
  List.length (map_from i f l) = List.length l.
Proof. revert i; induction l as [|x l IH]; intros i; simpl; auto. Qed.

Lemma nth_map_from {A B : Type} (f : nat -> A -> B) (l : list A) (i j : nat)
    (db : B) (da : A) :
  (j < List.length l)%nat ->
  nth j (map_from i f l) db = f (i + j)%nat (nth j l da).
Proof.
  revert i j; induction l as [|y l IH]; intros i j Hj; simpl in Hj; [lia|].
  destruct j as [|j]; simpl.
  - f_equal. lia.
  - rewrite IH by lia. f_equal. lia.
Qed.

Lemma resolved_nth {A : Type} (ps : list (promise A)) (vs : list A) (d : A) :
  promise_all ps = Resolved vs ->
  List.length ps = List.length vs
  /\ forall i, (i < List.length vs)%nat ->
       nth i ps Pending = Resolved (nth i vs d).
Proof.
  intros H. apply promise_all_resolved in H.
  induction H as [|p v ps vs Hp _ [IHl IHn]]; simpl.
  - split; [reflexivity|intros i Hi; lia].
  - split; [now f_equal|].
    intros [|i] Hi; [exact Hp|]. apply IHn. lia.
Qed.

(** X16.  With a breadth of zero or more, an invocation keeps the
    first [breadth] queries of the service, all of them when the
    service returns no more than that, and runs exactly one branch task
    for each query kept, never more than [breadth] tasks: what the
    invocation settles to is what awaiting these tasks together gives,
    and a result is the merge of one task result per query kept. *)
Theorem deepResearch_at_most_breadth
    (generateQueries :
       position -> string -> Z -> list string -> settled (list SerpQuery))
    (search : position -> string -> settled SearchResponse)
    (generateFindings :
       position -> string -> list string -> Z -> Z -> settled Findings)
    (trimPrompt_ : string -> Z -> string)
    (fuel : nat) (here : position) (topic : string) (breadth depth : Z)
    (priorLearnings priorUrls : list string) (answered : list SerpQuery) :
  0 <= breadth ->
  generateQueries here topic breadth priorLearnings = Fulfilled answered ->
  let serpQueries := firstn (Z.to_nat breadth) answered in
  let tasks :=
    taskResults generateQueries search generateFindings trimPrompt_
      fuel here breadth depth priorLearnings priorUrls serpQueries in
  generateSerpQueries generateQueries here topic breadth priorLearnings
  = Fulfilled serpQueries
  /\ (Z.of_nat (List.length answered) <= breadth -> serpQueries = answered)
  /\ deepResearch generateQueries search generateFindings trimPrompt_
       (S fuel) here topic breadth depth priorLearnings priorUrls
     = match promise_all tasks with
       | Resolved results => Resolved (mergeResults results)
       | Rejected e => Rejected e
       | Pending => Pending
       end
  /\ List.length tasks = Nat.min (Z.to_nat breadth) (List.length answered)
  /\ (forall i, (i < List.length serpQueries)%nat ->
        nth i tasks Pending
        = branchTask search generateFindings trimPrompt_
            (deepResearch generateQueries search generateFindings trimPrompt_
               fuel)
            here breadth depth priorLearnings priorUrls
            i (nth i serpQueries (mkSerpQuery "" "")))
  /\ (forall r,
        deepResearch generateQueries search generateFindings trimPrompt_
          (S fuel) here topic breadth depth priorLearnings priorUrls
        = Resolved r ->
        exists results,
          r = mergeResults results
          /\ List.length results
             = Nat.min (Z.to_nat breadth) (List.length answered)
          /\ forall i, (i < List.length results)%nat ->
               nth i tasks Pending = Resolved (nth i results emptyResult))
  /\ Z.of_nat (List.length serpQueries) <= breadth.
Proof.
  intros Hb Hgen serpQueries tasks.
  assert (Hq : generateSerpQueries generateQueries here topic breadth
                 priorLearnings = Fulfilled serpQueries).
  { unfold generateSerpQueries. rewrite Hgen.
    unfold array_slice0. destruct (Z.ltb_spec breadth 0); [lia|]. reflexivity. }
  assert (Hrun :
    deepResearch generateQueries search generateFindings trimPrompt_
      (S fuel) here topic breadth depth priorLearnings priorUrls
    = match promise_all tasks with
      | Resolved results => Resolved (mergeResults results)
      | Rejected e => Rejected e
      | Pending => Pending
      end).
  { simpl. rewrite Hq. reflexivity. }
  assert (Hlen : List.length tasks
                 = Nat.min (Z.to_nat breadth) (List.length answered)).
  { unfold tasks, taskResults. rewrite map_from_length. apply length_firstn. }
  split; [exact Hq|]. split; [|split; [exact Hrun|split; [exact Hlen|]]].
  - intros Hall. apply firstn_all2. lia.
  - split; [|split].
    + intros i Hi. unfold tasks, taskResults.
      now rewrite (nth_map_from _ _ 0 i Pending (mkSerpQuery "" "") Hi).
    + intros r Hr. rewrite Hrun in Hr.
      destruct (promise_all tasks) as [results| |] eqn:Eall;
        [|discriminate|discriminate].
      injection Hr as <-. exists results. split; [reflexivity|].
      destruct (resolved_nth tasks results emptyResult Eall) as [Hl Hn].
      split; [now rewrite <- Hl|exact Hn].
    + unfold serpQueries. rewrite length_firstn. lia.
Qed.

Lemma deepResearch_at_most_breadth_witness :
  generateSerpQueries sampleGenerate [] "batteries"%string 2 []
  = Fulfilled
      [ {| query := "solid state batteries"; researchGoal := "energy density" |};
        {| query := "sodium ion batteries"; researchGoal := "cost per kWh" |} ].
Proof.
  refine (proj1 (deepResearch_at_most_breadth sampleGenerate sampleSearch
            sampleFindings sampleTrim 1 [] "batteries"%string 2 1 [] []
            _ _ eq_refl)).
  lia.
Defined.

(** X17.  A negative breadth is not refused: [slice(0, breadth)] then
    counts from the end, and the invocation runs the queries of the
    service without the last [-breadth] of them. *)
Theorem generateSerpQueries_negative
    (generateQueries :
       position -> string -> Z -> list string -> settled (list SerpQuery))
    (here : position) (topic : string) (breadth : Z)
    (priorLearnings : list string) (answered : list SerpQuery) :
  breadth < 0 ->
  generateQueries here topic breadth priorLearnings = Fulfilled answered ->
  exists kept,
    generateSerpQueries generateQueries here topic breadth priorLearnings
    = Fulfilled kept
    /\ kept = firstn (List.length answered - Z.to_nat (- breadth)) answered
    /\ List.length kept = (List.length answered - Z.to_nat (- breadth))%nat.
Proof.
  intros Hb Hgen. unfold generateSerpQueries. rewrite Hgen.
  unfold array_slice0. destruct (Z.ltb_spec breadth 0); [|lia].
  replace (Z.to_nat (Z.of_nat (List.length answered) + breadth))
    with (List.length answered - Z.to_nat (- breadth))%nat by lia.
  eexists. split; [reflexivity|]. split; [reflexivity|].
  rewrite length_firstn. lia.
Qed.

Lemma generateSerpQueries_negative_witness :
  exists kept,
    generateSerpQueries sampleGenerate [] "batteries"%string (-1) []
    = Fulfilled kept
    /\ kept = firstn (3 - Z.to_nat (- -1))
                [ {| query := "solid state batteries"; researchGoal := "energy density" |};
                  {| query := "sodium ion batteries"; researchGoal := "cost per kWh" |};
                  {| query := "lithium supply"; researchGoal := "mining capacity" |} ]
    /\ List.length kept = (3 - Z.to_nat (- -1))%nat.
Proof.
  exact (generateSerpQueries_negative sampleGenerate [] "batteries"%string
           (-1) []
           [ {| query := "solid state batteries"; researchGoal := "energy density" |};
             {| query := "sodium ion batteries"; researchGoal := "cost per kWh" |};
             {| query := "lithium supply"; researchGoal := "mining capacity" |} ]
           eq_refl eq_refl).
Defined.

(** X18.  The breadth of the next level: never more than the breadth,
    strictly less from 2 on, 1 at 1, and 1 after [k] levels when the
    breadth is at most [2 ^ k]; a breadth of zero or less stays at zero
    or less. *)
Theorem halve_up_decay (breadth : Z) (k : nat) :
  (1 <= breadth -> 1 <= halve_up breadth <= breadth)
  /\ (2 <= breadth -> halve_up breadth < breadth)
  /\ halve_up 1 = 1
  /\ (1 <= breadth <= 2 ^ Z.of_nat k -> Nat.iter k halve_up breadth = 1)
  /\ (breadth <= 0 -> halve_up breadth <= 0).
Proof.
  pose proof (halve_up_ceiling breadth) as Hc.
  split; [lia|]. split; [lia|]. split; [reflexivity|]. split; [|lia].
  clear Hc. revert breadth. induction k as [|k IH]; intros breadth Hb.
  - simpl in *. lia.
  - replace (Nat.iter (S k) halve_up breadth)
      with (Nat.iter k halve_up (halve_up breadth))
      by (rewrite <- Nat.iter_succ_r; reflexivity).
    apply IH. pose proof (halve_up_ceiling breadth).
    replace (2 ^ Z.of_nat (S k)) with (2 * 2 ^ Z.of_nat k) in Hb
      by (rewrite Nat2Z.inj_succ, Z.pow_succ_r; lia).
    lia.
Qed.

Lemma halve_up_decay_witness : Nat.iter 3 halve_up 8 = 1.
Proof.
  apply (proj1 (proj2 (proj2 (proj2 (halve_up_decay 8 3))))). simpl. lia.
Defined.

(** ** [deepResearch]: what a run returns *)

Section Runs.

Variable generateQueries :
  position -> string -> Z -> list string -> settled (list SerpQuery).
Variable search : position -> string -> settled SearchResponse.
Variable generateFindings :
  position -> string -> list string -> Z -> Z -> settled Findings.
Variable trimPrompt_ : string -> Z -> string.

Local Abbreviation research :=
  (deepResearch generateQueries search generateFindings trimPrompt_).
Local Abbreviation branch :=
  (branchTask search generateFindings trimPrompt_).
Local Abbreviation extract :=
  (processSerpResult generateFindings trimPrompt_).

(** The ways a branch task is fulfilled. *)
Lemma branch_resolved recurse here breadth depth ls us i sq res :
  branch recurse here breadth depth ls us i sq = Resolved res ->
  res = emptyResult
  \/ exists result found,
       search (here ++ [i]) (query sq) = Fulfilled result
       /\ extract (here ++ [i]) (query sq) result 3 (halve_up breadth)
          = Fulfilled found
       /\ ((0 < depth - 1
            /\ recurse (here ++ [i]) (nextQueryOf sq found) (halve_up breadth)
                 (depth - 1) (ls ++ newLearnings found)
                 (us ++ compact (map url (data result)))
               = Resolved res)
           \/ (depth - 1 <= 0
               /\ res = {| learnings := ls ++ newLearnings found;
                           visitedUrls := us ++ compact (map url (data result)) |})).
Proof.
  unfold branchTask.
  destruct (search (here ++ [i]) (query sq)) as [result|];
    [|intros [= <-]; now left].
  destruct (extract (here ++ [i]) (query sq) result 3 (halve_up breadth))
    as [found|] eqn:Ex; [|intros [= <-]; now left].
  destruct (Z.gtb_spec (depth - 1) 0).
  - intros H'. right. exists result, found. auto 6.
  - intros [= <-]. right. exists result, found. auto 6.
Qed.

(** A fulfilled invocation is the merge of its fulfilled tasks. *)
Lemma research_resolved (fuel : nat) here topic breadth depth ls us r :
  research (S fuel) here topic breadth depth ls us = Resolved r ->
  exists serpQueries results,
    generateSerpQueries generateQueries here topic breadth ls
    = Fulfilled serpQueries
    /\ r = mergeResults results
    /\ forall res, In res results ->
         exists i sq, In sq serpQueries
           /\ branch (research fuel) here breadth depth ls us i sq
              = Resolved res.
Proof.
  simpl.
  destruct (generateSerpQueries generateQueries here topic breadth ls)
    as [serpQueries|]; [|discriminate].
  destruct (promise_all _) as [results| |] eqn:E; try discriminate.
  intros [= <-]. exists serpQueries, results.
  split; [reflexivity|]. split; [reflexivity|].
  apply promise_all_resolved in E.
  intros res Hres.
  assert (Hin : In (Resolved res)
                   (map_from 0 (branch (research fuel) here breadth depth ls us)
                      serpQueries)).
  { clear -E Hres. induction E as [|p v ps vs Hp _ IH]; [destruct Hres|].
    destruct Hres as [->|Hres]; [left; exact Hp|right; auto]. }
  apply map_from_In in Hin. destruct Hin as (i & sq & Hsq & Heq).
  exists i, sq. split; [assumption|now symmetry].
Qed.

Lemma research_carries (fuel : nat) :
  forall here topic breadth depth ls us r,
    research fuel here topic breadth depth ls us = Resolved r ->
    carries_or_empty ls us r.
Proof.
  induction fuel as [|fuel IH]; intros here topic breadth depth ls us r H;
    [discriminate|].
  apply research_resolved in H.
  destruct H as (serpQueries & results & _ & -> & Htasks).
  assert (Heach : forall res, In res results -> carries_or_empty ls us res).
  { intros res Hres. destruct (Htasks res Hres) as (i & sq & _ & Hb).
    apply branch_resolved in Hb.
    destruct Hb as [->|(result & found & _ & _ & [[_ Hrec]|[_ ->]])].
    - left. split; reflexivity.
    - apply IH in Hrec. destruct Hrec as [Hempty|[Hl Hu]]; [now left|].
      right. split; intros x Hx; [apply Hl|apply Hu]; apply in_or_app; now left.
    - right. simpl. split; intros x Hx; apply in_or_app; now left. }
  clear Htasks.
  assert (Hcases : (forall res, In res results ->
                                learnings res = [] /\ visitedUrls res = [])
                   \/ exists res, In res results
                        /\ incl ls (learnings res) /\ incl us (visitedUrls res)).
  { induction results as [|res results IHr]; [left; intros ? []|].
    destruct (Heach res (or_introl eq_refl)) as [Hempty|Hfull].
    - destruct IHr as [Hall|(res' & Hin & Hfull)].
      + intros res' Hin. apply Heach. now right.
      + left. intros res' [<-|Hin]; auto.
      + right. exists res'. split; [now right|assumption].
    - right. exists res. split; [now left|assumption]. }
  destruct Hcases as [Hall|(res & Hin & Hl & Hu)].
  - left. unfold mergeResults. simpl.
    assert (Hfl : forall (f : ResearchResult -> list string),
              (forall res, In res results -> f res = []) ->
              flat_map f results = []).
    { intros f Hf. clear -Hf. induction results as [|a l IHl]; [reflexivity|].
      simpl. rewrite (Hf a (or_introl eq_refl)). simpl.
      apply IHl. intros res Hres. apply Hf. now right. }
    rewrite !Hfl; [split; reflexivity| |]; intros res Hres;
      now destruct (Hall res Hres).
  - right. unfold mergeResults. simpl.
    split; intros x Hx; apply set_spread_In, in_flat_map; exists res; auto.
Qed.

Lemma research_provenance (fuel : nat) :
  forall here topic breadth depth ls us r,
    research fuel here topic breadth depth ls us = Resolved r ->
    (forall x, In x (learnings r) -> In x ls \/ learned generateFindings x)
    /\ (forall u, In u (visitedUrls r) ->
                  In u us \/ (u <> ""%string /\ searched search u)).
Proof.
  induction fuel as [|fuel IH]; intros here topic breadth depth ls us r H;
    [discriminate|].
  apply research_resolved in H.
  destruct H as (serpQueries & results & _ & -> & Htasks).
  assert (Heach : forall res, In res results ->
            (forall x, In x (learnings res) ->
                       In x ls \/ learned generateFindings x)
            /\ (forall u, In u (visitedUrls res) ->
                          In u us \/ (u <> ""%string /\ searched search u))).
  { intros res Hres. destruct (Htasks res Hres) as (i & sq & _ & Hb).
    apply branch_resolved in Hb.
    destruct Hb as [->|(result & found & Hs & He & Hcase)];
      [split; intros ? []|].
    assert (Hnew : forall x, In x (ls ++ newLearnings found) ->
                             In x ls \/ learned generateFindings x).
    { intros x Hx. apply in_app_or in Hx. destruct Hx as [Hx|Hx]; [now left|].
      right. unfold processSerpResult in He. red. eauto 10. }
    assert (Hurl : forall u, In u (us ++ compact (map url (data result))) ->
                             In u us \/ (u <> ""%string /\ searched search u)).
    { intros u Hu. apply in_app_or in Hu. destruct Hu as [Hu|Hu]; [now left|].
      right. apply compact_In in Hu. destruct Hu as [Hu Hne].
      split; [assumption|].
      apply in_map_iff in Hu. destruct Hu as (item & Hurl & Hitem).
      red. eauto 10. }
    destruct Hcase as [[_ Hrec]|[_ ->]]; [|split; assumption].
    apply IH in Hrec. destruct Hrec as [Hl Hu].
    split; intros x Hx.
    - destruct (Hl x Hx) as [Hin|Hlearned]; [now apply Hnew|now right].
    - destruct (Hu x Hx) as [Hin|Hsearched]; [now apply Hurl|now right]. }
  unfold mergeResults. simpl.
  split; intros x Hx; apply set_spread_In, in_flat_map in Hx;
    destruct Hx as (res & Hres & Hx); now apply (Heach res Hres).
Qed.

Lemma research_NoDup (fuel : nat) here topic breadth depth ls us r :
  research fuel here topic breadth depth ls us = Resolved r ->
  NoDup (learnings r) /\ NoDup (visitedUrls r).
Proof.
  destruct fuel as [|fuel]; [discriminate|]. intros H.
  apply research_resolved in H. destruct H as (_ & results & _ & -> & _).
  split; apply set_spread_NoDup.
Qed.

End Runs.

(** ** [deepResearch] over rejection values *)

Lemma map_from_In_nth {A B : Type} (f : nat -> A -> B) (l : list A) (i : nat)
    (y : B) :
  In y (map_from i f l) ->
  exists j x, nth_error l j = Some x /\ y = f (i + j)%nat x.
Proof.
  revert i; induction l as [|x l IH]; intros i; simpl; [tauto|].
  intros [<-|H].
  - exists O, x. split; [reflexivity|]. f_equal. lia.
  - destruct (IH _ H) as (j & x' & Hj & ->). exists (S j), x'.
    split; [exact Hj|]. f_equal. lia.
Qed.

Lemma any_promise_all_rejected {A : Type}
    (ps : list (AnyRejection.promise A)) (x : AnyRejection.raised) :
  AnyRejection.promise_all ps = AnyRejection.Rejected x ->
  In (AnyRejection.Rejected x) ps.
Proof.
  induction ps as [|p ps IH]; simpl; [discriminate|].
  destruct p as [v|x'|]; [|intros [= ->]; auto|discriminate].
  destruct (AnyRejection.promise_all ps); try discriminate.
  intros [= ->]. auto.
Qed.

Section AnyRejectionResearch.

Variable generateQueries :
  position -> string -> Z -> list string
  -> AnyRejection.settled (list SerpQuery).
Variable search : position -> string -> AnyRejection.settled SearchResponse.
Variable generateFindings :
  position -> string -> list string -> Z -> Z -> AnyRejection.settled Findings.
Variable trimPrompt_ : string -> Z -> string.

Local Abbreviation research :=
  (AnyRejection.deepResearch generateQueries search generateFindings
     trimPrompt_).
Local Abbreviation branch :=
  (AnyRejection.branchTask search generateFindings trimPrompt_).
Local Abbreviation extract :=
  (AnyRejection.processSerpResult generateFindings trimPrompt_).
Local Abbreviation makes :=
  (AnyRejection.makes generateQueries search generateFindings trimPrompt_).
Local Abbreviation rejects :=
  (AnyRejection.rejects generateQueries search generateFindings trimPrompt_).

Lemma any_caught_rejected (e : AnyRejection.rejection)
    (x : AnyRejection.raised) :
  AnyRejection.caught e = AnyRejection.Rejected x ->
  x = AnyRejection.RaisedTypeError /\ AnyRejection.unreadable e = true.
Proof.
  unfold AnyRejection.caught.
  destruct (AnyRejection.unreadable e); [|discriminate].
  intros [= <-]. auto.
Qed.

(** A rejected task: its catch block threw, or the invocation it
    returned was rejected. *)
Lemma any_branch_rejected recurse here breadth depth ls us i sq x :
  branch recurse here breadth depth ls us i sq = AnyRejection.Rejected x ->
  (x = AnyRejection.RaisedTypeError
   /\ ((exists e, search (here ++ [i]) (query sq) = AnyRejection.Failed e
                  /\ AnyRejection.unreadable e = true)
       \/ (exists result e,
             search (here ++ [i]) (query sq) = AnyRejection.Fulfilled result
             /\ extract (here ++ [i]) (query sq) result 3 (halve_up breadth)
                = AnyRejection.Failed e
             /\ AnyRejection.unreadable e = true)))
  \/ (exists result found,
        search (here ++ [i]) (query sq) = AnyRejection.Fulfilled result
        /\ extract (here ++ [i]) (query sq) result 3 (halve_up breadth)
           = AnyRejection.Fulfilled found
        /\ depth - 1 > 0
        /\ recurse (here ++ [i]) (nextQueryOf sq found) (halve_up breadth)
                   (depth - 1) (ls ++ newLearnings found)
                   (us ++ compact (map url (data result)))
           = AnyRejection.Rejected x).
Proof.
  unfold AnyRejection.branchTask.
  destruct (search (here ++ [i]) (query sq)) as [result|e] eqn:Es.
  - destruct (extract (here ++ [i]) (query sq) result 3 (halve_up breadth))
      as [found|e] eqn:Ex.
    + destruct (Z.gtb_spec (depth - 1) 0); [|discriminate].
      intros H'. right. exists result, found. repeat split; auto. lia.
    + intros H'. apply any_caught_rejected in H'. destruct H' as [-> Hu].
      left. split; [reflexivity|]. right. exists result, e. auto.
  - intros H'. apply any_caught_rejected in H'. destruct H' as [-> Hu].
    left. split; [reflexivity|]. left. exists e. auto.
Qed.

Lemma any_research_rejected (fuel : nat) :
  forall (c : AnyRejection.invocation) (x : AnyRejection.raised),
    research fuel (AnyRejection.place c) (AnyRejection.ofQuery c)
      (AnyRejection.ofBreadth c) (AnyRejection.ofDepth c)
      (AnyRejection.priorLearnings c) (AnyRejection.priorUrls c)
    = AnyRejection.Rejected x ->
    exists c', makes c c' /\ rejects c' x.
Proof.
  induction fuel as [|fuel IH]; intros c x; simpl; [discriminate|].
  destruct (AnyRejection.generateSerpQueries generateQueries
              (AnyRejection.place c) (AnyRejection.ofQuery c)
              (AnyRejection.ofBreadth c) (AnyRejection.priorLearnings c))
    as [serpQueries|e] eqn:Eq.
  - destruct (AnyRejection.promise_all _) as [results|x1|] eqn:E;
      try discriminate.
    intros [= <-]. apply any_promise_all_rejected in E.
    apply map_from_In_nth in E. destruct E as (i & sq & Hsq & E).
    simpl in E. symmetry in E.
    assert (Hruns : AnyRejection.runs generateQueries c i sq)
      by (exists serpQueries; auto).
    apply any_branch_rejected in E.
    destruct E as [[-> Hwhy]|(result & found & Hs & Hx & Hd & Hrec)].
    + exists c. split; [constructor|]. simpl. exists i, sq. auto.
    + destruct (IH (AnyRejection.below c i sq result found) x1 Hrec)
        as (c' & Hmakes & Hwhy).
      exists c'. split; [|exact Hwhy].
      now apply (AnyRejection.makes_below generateQueries search
                   generateFindings trimPrompt_ c i sq result found c').
  - intros [= <-]. exists c. split; [constructor|].
    simpl. unfold AnyRejection.generateSerpQueries in Eq.
    destruct (generateQueries _ _ _ _); [discriminate|].
    now injection Eq as ->.
Qed.

End AnyRejectionResearch.

(** On error objects [deepResearch] over rejection values runs as
    [deepResearch] over error objects does: a catch block can read
    every error object. *)
Lemma unreadable_ofError (e : Error) :
  AnyRejection.unreadable (ofError e) = false.
Proof. unfold ofError. destruct (message e); reflexivity. Qed.

Lemma any_promise_all_refines {A : Type} (ps : list (promise A)) :
  AnyRejection.promise_all (map ofPromise ps) = ofPromise (promise_all ps).
Proof.
  induction ps as [|[v|e|] ps IH]; simpl; try reflexivity.
  rewrite IH. destruct (promise_all ps); reflexivity.
Qed.

Lemma map_map_from {A B C : Type} (g : B -> C) (f : nat -> A -> B)
    (l : list A) (i : nat) :
  map g (map_from i f l) = map_from i (fun j x => g (f j x)) l.
Proof. revert i; induction l as [|x l IH]; intros i; simpl; [|rewrite IH]; reflexivity. Qed.

Lemma map_from_ext {A B : Type} (f g : nat -> A -> B) (l : list A) (i : nat) :
  (forall j x, f j x = g j x) -> map_from i f l = map_from i g l.
Proof.
  intros H. revert i; induction l as [|x l IH]; intros i; simpl;
    [reflexivity|]. now rewrite H, IH.
Qed.

Lemma any_research_refines
    (generateQueries :
       position -> string -> Z -> list string -> settled (list SerpQuery))
    (search : position -> string -> settled SearchResponse)
    (generateFindings :
       position -> string -> list string -> Z -> Z -> settled Findings)
    (trimPrompt_ : string -> Z -> string) (fuel : nat) :
  forall here topic breadth depth ls us,
    AnyRejection.deepResearch
      (fun here topic n known => ofSettled (generateQueries here topic n known))
      (fun here q => ofSettled (search here q))
      (fun here q contents n k => ofSettled (generateFindings here q contents n k))
      trimPrompt_ fuel here topic breadth depth ls us
    = ofPromise (deepResearch generateQueries search generateFindings
                   trimPrompt_ fuel here topic breadth depth ls us).
Proof.
  induction fuel as [|fuel IH]; intros here topic breadth depth ls us;
    [reflexivity|].
  simpl. unfold AnyRejection.generateSerpQueries, generateSerpQueries.
  destruct (generateQueries here topic breadth ls) as [queries|e];
    simpl ofSettled; cbv iota; [|reflexivity].
  rewrite (map_from_ext _
             (fun j x =>
                ofPromise
                  (branchTask search generateFindings trimPrompt_
                     (deepResearch generateQueries search generateFindings
                        trimPrompt_ fuel)
                     here breadth depth ls us j x))).
  - rewrite <- map_map_from, any_promise_all_refines.
    destruct (promise_all _); reflexivity.
  - intros j x. unfold AnyRejection.branchTask, branchTask.
    unfold AnyRejection.processSerpResult, processSerpResult.
    unfold AnyRejection.caught.
    destruct (search (here ++ [j]) (query x)) as [result|e]; simpl ofSettled;
      cbv iota; [|now rewrite unreadable_ofError].
    destruct (generateFindings _ _ _ _ _) as [found|e]; simpl ofSettled;
      cbv iota; [|now rewrite unreadable_ofError].
    cbv zeta. destruct (depth - 1 >? 0); [apply IH|reflexivity].
Qed.

(** X19.  Where the rejection of a run comes from, whatever values the
    services reject with.  A run of [deepResearch] is rejected only in
    two ways.  Either the query generation of an invocation the run has
    made (the first one, or one made by a branch task further down) was
    rejected, and the run is rejected with that very value.  Or the
    catch block of a branch task of such an invocation threw a
    [TypeError]: the search or the extraction of that task was rejected
    with [null] or [undefined], or with a value whose message is truthy
    and has no [includes] method.  Every other rejection of a search or
    of an extraction stays inside its task. *)
Theorem deepResearch_rejection_origin
    (generateQueries :
       position -> string -> Z -> list string
       -> AnyRejection.settled (list SerpQuery))
    (search : position -> string -> AnyRejection.settled SearchResponse)
    (generateFindings :
       position -> string -> list string -> Z -> Z
       -> AnyRejection.settled Findings)
    (trimPrompt_ : string -> Z -> string)
    (fuel : nat) (here : position) (topic : string) (breadth depth : Z)
    (priorLearnings priorUrls : list string) (x : AnyRejection.raised) :
  AnyRejection.deepResearch generateQueries search generateFindings
    trimPrompt_ fuel here topic breadth depth priorLearnings priorUrls
  = AnyRejection.Rejected x ->
  exists c',
    AnyRejection.makes generateQueries search generateFindings trimPrompt_
      (AnyRejection.mkInvocation here topic breadth depth
         priorLearnings priorUrls) c'
    /\ match x with
       | AnyRejection.Raised e =>
           generateQueries (AnyRejection.place c') (AnyRejection.ofQuery c')
             (AnyRejection.ofBreadth c') (AnyRejection.priorLearnings c')
           = AnyRejection.Failed e
       | AnyRejection.RaisedTypeError =>
           exists i serpQuery,
             AnyRejection.runs generateQueries c' i serpQuery
             /\ ((exists e,
                    search (AnyRejection.place c' ++ [i]) (query serpQuery)
                    = AnyRejection.Failed e
                    /\ AnyRejection.unreadable e = true)
                 \/ (exists result e,
                       search (AnyRejection.place c' ++ [i]) (query serpQuery)
                       = AnyRejection.Fulfilled result
                       /\ AnyRejection.processSerpResult generateFindings
                            trimPrompt_ (AnyRejection.place c' ++ [i])
                            (query serpQuery) result 3
                            (halve_up (AnyRejection.ofBreadth c'))
                          = AnyRejection.Failed e
                       /\ AnyRejection.unreadable e = true))
       end.
Proof.
  intros H.
  exact (any_research_rejected generateQueries search generateFindings
           trimPrompt_ fuel
           (AnyRejection.mkInvocation here topic breadth depth
              priorLearnings priorUrls) x H).
Qed.

Lemma deepResearch_rejection_origin_witness :
  exists c',
    AnyRejection.makes sampleGenerateAny sampleSearchAny sampleFindingsAny
      sampleTrim
      (AnyRejection.mkInvocation [] "batteries"%string 2 1 [] []) c'
    /\ exists i serpQuery,
         AnyRejection.runs sampleGenerateAny c' i serpQuery
         /\ ((exists e,
                sampleSearchAny (AnyRejection.place c' ++ [i]) (query serpQuery)
                = AnyRejection.Failed e
                /\ AnyRejection.unreadable e = true)
             \/ (exists result e,
                   sampleSearchAny (AnyRejection.place c' ++ [i])
                     (query serpQuery)
                   = AnyRejection.Fulfilled result
                   /\ AnyRejection.processSerpResult sampleFindingsAny
                        sampleTrim (AnyRejection.place c' ++ [i])
                        (query serpQuery) result 3
                        (halve_up (AnyRejection.ofBreadth c'))
                      = AnyRejection.Failed e
                   /\ AnyRejection.unreadable e = true)).
Proof.
  apply (deepResearch_rejection_origin sampleGenerateAny sampleSearchAny
           sampleFindingsAny sampleTrim 2 [] "batteries"%string 2 1 [] []
           AnyRejection.RaisedTypeError).
  vm_compute. reflexivity.
Defined.

(** A search rejected with [null] brings the whole run down, though
    the other branch has found its results. *)
Example deepResearch_null_rejection :
  AnyRejection.deepResearch sampleGenerateAny sampleSearchAny
    sampleFindingsAny sampleTrim 2 [] "batteries"%string 2 1 [] []
  = AnyRejection.Rejected AnyRejection.RaisedTypeError.
Proof. vm_compute. reflexivity. Qed.

(** X20.  A fulfilled run either carries every learning and every URL
    it was given, or returns nothing at all: when no branch comes
    through (no query, or every branch caught a failure), what was
    known before is dropped with the rest. *)
Theorem deepResearch_carries_or_drops
    (generateQueries :
       position -> string -> Z -> list string -> settled (list SerpQuery))
    (search : position -> string -> settled SearchResponse)
    (generateFindings :
       position -> string -> list string -> Z -> Z -> settled Findings)
    (trimPrompt_ : string -> Z -> string)
    (fuel : nat) (here : position) (topic : string) (breadth depth : Z)
    (priorLearnings priorUrls : list string) (r : ResearchResult) :
  deepResearch generateQueries search generateFindings trimPrompt_
    fuel here topic breadth depth priorLearnings priorUrls = Resolved r ->
  carries_or_empty priorLearnings priorUrls r.
Proof. apply research_carries. Qed.

Lemma deepResearch_carries_or_drops_witness :
  carries_or_empty ["known"%string] ["https://example.org/seen"%string]
                   sampleResult.
Proof.
  apply (deepResearch_carries_or_drops sampleGenerate sampleSearch
           sampleFindings sampleTrim 2 [] "batteries"%string 2 1).
  vm_compute. reflexivity.
Defined.

(** The other side: a search that fails everywhere loses the known
    learning. *)
Example deepResearch_drops_known :
  deepResearch sampleGenerate (fun _ _ => Failed (mkError (Some "Timeout"%string)))
    sampleFindings sampleTrim 2 [] "batteries"%string 2 1
    ["known"%string] ["https://example.org/seen"%string]
  = Resolved emptyResult.
Proof. vm_compute. reflexivity. Qed.

(** X21.  Nothing is made up on the way: every learning of a fulfilled
    run was given to it or is a learning of some answer of the
    extraction, and every URL was given to it or is the non-empty URL
    of a document of some search response. *)
Theorem deepResearch_provenance
    (generateQueries :
       position -> string -> Z -> list string -> settled (list SerpQuery))
    (search : position -> string -> settled SearchResponse)
    (generateFindings :
       position -> string -> list string -> Z -> Z -> settled Findings)
    (trimPrompt_ : string -> Z -> string)
    (fuel : nat) (here : position) (topic : string) (breadth depth : Z)
    (priorLearnings priorUrls : list string) (r : ResearchResult) :
  deepResearch generateQueries search generateFindings trimPrompt_
    fuel here topic breadth depth priorLearnings priorUrls = Resolved r ->
  (forall x, In x (learnings r) ->
             In x priorLearnings \/ learned generateFindings x)
  /\ (forall u, In u (visitedUrls r) ->
                In u priorUrls \/ (u <> ""%string /\ searched search u)).
Proof. apply research_provenance. Qed.

Lemma deepResearch_provenance_witness :
  (forall x, In x (learnings sampleResult) ->
             In x ["known"%string] \/ learned sampleFindings x)
  /\ (forall u, In u (visitedUrls sampleResult) ->
                In u ["https://example.org/seen"%string]
                \/ (u <> ""%string /\ searched sampleSearch u)).
Proof.
  apply (deepResearch_provenance sampleGenerate sampleSearch
           sampleFindings sampleTrim 2 [] "batteries"%string 2 1).
  vm_compute. reflexivity.
Defined.

(** X22.  With a breadth of 0, or when the service has no query to
    offer, the invocation makes no search and is fulfilled with the
    empty result, whatever learnings and URLs it was given. *)
Theorem deepResearch_no_queries
    (generateQueries :
       position -> string -> Z -> list string -> settled (list SerpQuery))
    (search : position -> string -> settled SearchResponse)
    (generateFindings :
       position -> string -> list string -> Z -> Z -> settled Findings)
    (trimPrompt_ : string -> Z -> string)
    (fuel : nat) (here : position) (topic : string) (breadth depth : Z)
    (priorLearnings priorUrls : list string) (answered : list SerpQuery) :
  generateQueries here topic breadth priorLearnings = Fulfilled answered ->
  breadth = 0 \/ answered = [] ->
  deepResearch generateQueries search generateFindings trimPrompt_
    (S fuel) here topic breadth depth priorLearnings priorUrls
  = Resolved emptyResult
  /\ forall search',
       deepResearch generateQueries search' generateFindings trimPrompt_
         (S fuel) here topic breadth depth priorLearnings priorUrls
       = Resolved emptyResult.
Proof.
  intros Hgen Hnone.
  assert (Hslice : array_slice0 breadth answered = []).
  { destruct Hnone as [->| ->]; [reflexivity|].
    unfold array_slice0. destruct (breadth <? 0); apply firstn_nil. }
  split; [|intros search']; simpl; unfold generateSerpQueries;
    rewrite Hgen, Hslice; reflexivity.
Qed.

Lemma deepResearch_no_queries_witness :
  deepResearch sampleGenerate sampleSearch sampleFindings sampleTrim
    1 [] "batteries"%string 0 2 ["known"%string] []
  = Resolved emptyResult.
Proof.
  refine (proj1 (deepResearch_no_queries sampleGenerate sampleSearch
            sampleFindings sampleTrim 0 [] "batteries"%string 0 2
            ["known"%string] [] _ eq_refl (or_introl eq_refl))).
Defined.

(** X23.  The invocations never nest deeper than the depth (one level
    for a depth of 1 or less): that many levels always settle the run,
    and with a depth of 1 or less no branch calls [deepResearch]
    again. *)
Theorem deepResearch_nesting
    (generateQueries :
       position -> string -> Z -> list string -> settled (list SerpQuery))
    (search : position -> string -> settled SearchResponse)
    (generateFindings :
       position -> string -> list string -> Z -> Z -> settled Findings)
    (trimPrompt_ : string -> Z -> string)
    (fuel : nat) (here : position) (topic : string) (breadth depth : Z)
    (priorLearnings priorUrls : list string) :
  let research :=
    deepResearch generateQueries search generateFindings trimPrompt_ in
  (Z.to_nat depth <= S fuel)%nat ->
  research (S fuel) here topic breadth depth priorLearnings priorUrls
  <> Pending
  /\ (depth <= 1 ->
      forall recurse i serpQuery,
        branchTask search generateFindings trimPrompt_ recurse here
          breadth depth priorLearnings priorUrls i serpQuery
        = branchTask search generateFindings trimPrompt_
            (fun _ _ _ _ _ _ => Pending) here
            breadth depth priorLearnings priorUrls i serpQuery).
Proof.
  intros research Hf. split.
  - revert here topic breadth depth priorLearnings priorUrls Hf.
    induction fuel as [|fuel IH];
      intros here topic breadth depth priorLearnings priorUrls Hf;
      unfold research; simpl;
      (destruct (generateSerpQueries generateQueries here topic breadth
                   priorLearnings) as [serpQueries|]; [|discriminate]);
      (destruct (promise_all _) as [rs|e|] eqn:E; try discriminate);
      exfalso; apply promise_all_pending in E;
      apply map_from_In in E; destruct E as (i & sq & _ & E);
      symmetry in E; revert E; unfold branchTask;
      (destruct (search (here ++ [i]) (query sq)) as [result|];
         [|discriminate]);
      (destruct (processSerpResult _ _ _ _ _ _ _) as [found|];
         [|discriminate]);
      (destruct (Z.gtb_spec (depth - 1) 0); [|discriminate]).
    + lia.
    + apply IH. lia.
  - intros Hd recurse i serpQuery. unfold branchTask.
    destruct (search (here ++ [i]) (query serpQuery)); [|reflexivity].
    destruct (processSerpResult _ _ _ _ _ _ _); [|reflexivity].
    destruct (Z.gtb_spec (depth - 1) 0); [lia|reflexivity].
Qed.

Lemma deepResearch_nesting_witness :
  let q := {| query := "cell lifetime"; researchGoal := "cycle count" |} in
  branchTask sampleSearch sampleFindings sampleTrim
    (deepResearch sampleGenerate sampleSearch sampleFindings sampleTrim 5)
    [1%nat] 1 1 [] [] 0 q
  = branchTask sampleSearch sampleFindings sampleTrim
      (fun _ _ _ _ _ _ => Pending) [1%nat] 1 1 [] [] 0 q.
Proof.
  intros q.
  refine (proj2 (deepResearch_nesting sampleGenerate sampleSearch
            sampleFindings sampleTrim 0 [1%nat] "batteries"%string 1 1 [] []
            _) _ _ _ _).
  - simpl. lia.
  - lia.
Defined.

Lemma mergeResults_single (r : ResearchResult) :
  NoDup (learnings r) -> NoDup (visitedUrls r) -> mergeResults [r] = r.
Proof.
  intros Hl Hu. destruct r as [ls us]. unfold mergeResults. simpl in *.
  rewrite !app_nil_r. unfold set_spread.
  rewrite !fold_set_add_fresh by assumption. reflexivity.
Qed.

(** X24.  A level with a single branch adds nothing of its own: when
    the only branch task returns the result of the invocation it
    called, the level returns that very result, in the same order. *)
Theorem deepResearch_single_branch
    (generateQueries :
       position -> string -> Z -> list string -> settled (list SerpQuery))
    (search : position -> string -> settled SearchResponse)
    (generateFindings :
       position -> string -> list string -> Z -> Z -> settled Findings)
    (trimPrompt_ : string -> Z -> string)
    (fuel : nat) (here : position) (topic : string) (breadth depth : Z)
    (priorLearnings priorUrls : list string) (serpQuery : SerpQuery)
    (result : SearchResponse) (found : Findings) (below : ResearchResult) :
  let research :=
    deepResearch generateQueries search generateFindings trimPrompt_ in
  generateSerpQueries generateQueries here topic breadth priorLearnings
  = Fulfilled [serpQuery] ->
  search (here ++ [O]) (query serpQuery) = Fulfilled result ->
  processSerpResult generateFindings trimPrompt_ (here ++ [O])
    (query serpQuery) result 3 (halve_up breadth) = Fulfilled found ->
  0 < depth - 1 ->
  research fuel (here ++ [O]) (nextQueryOf serpQuery found)
    (halve_up breadth) (depth - 1)
    (priorLearnings ++ newLearnings found)
    (priorUrls ++ compact (map url (data result)))
  = Resolved below ->
  research (S fuel) here topic breadth depth priorLearnings priorUrls
  = Resolved below.
Proof.
  intros research Hgen Hs He Hd Hbelow. unfold research. simpl.
  rewrite Hgen. simpl. unfold branchTask. rewrite Hs, He.
  destruct (Z.gtb_spec (depth - 1) 0); [|lia].
  fold research. rewrite Hbelow. f_equal.
  apply research_NoDup in Hbelow. now apply mergeResults_single.
Qed.

Lemma deepResearch_single_branch_witness :
  deepResearch sampleGenerate sampleSearch sampleFindings sampleTrim
    3 [1%nat] "batteries"%string 1 2 ["known"%string] []
  = Resolved {| learnings := ["known"; "about cell lifetime";
                              "batteries store energy"]%string;
                visitedUrls := ["https://example.org/cell lifetime"%string] |}.
Proof.
  apply (deepResearch_single_branch sampleGenerate sampleSearch
           sampleFindings sampleTrim 2 [1%nat] "batteries"%string 1 2
           ["known"%string] []
           {| query := "cell lifetime"; researchGoal := "cycle count" |}
           {| data := [ {| url := Some "https://example.org/cell lifetime"%string;
                           markdown := Some "text"%string |};
                        {| url := None; markdown := None |} ] |}
           {| newLearnings := ["about cell lifetime"; "batteries store energy"]%string;
              followUpQuestions := ["what next?"%string] |});
    [reflexivity|reflexivity|reflexivity|lia|vm_compute; reflexivity].
Defined.

(** ** Merging *)

Lemma set_add_extends (seen : list string) (x : string) :
  exists t, set_add seen x = seen ++ t.
Proof.
  induction seen as [|y seen [t IH]]; simpl; [exists [x]; reflexivity|].
  destruct (String.eqb y x); [exists []; now rewrite app_nil_r|].
  exists t. now rewrite IH.
Qed.

Lemma fold_set_add_extends (xs seen : list string) :
  exists t, fold_left set_add xs seen = seen ++ t.
Proof.
  revert seen; induction xs as [|x xs IH]; intros seen; simpl;
    [exists []; now rewrite app_nil_r|].
  destruct (set_add_extends seen x) as [t1 ->].
  destruct (IH (seen ++ t1)) as [t2 ->].
  exists (t1 ++ t2). now rewrite app_assoc.
Qed.

Lemma set_spread_app (xs ys : list string) :
  exists rest,
    set_spread (xs ++ ys) = set_spread xs ++ rest
    /\ forall x, In x rest -> ~ In x xs /\ In x ys.
Proof.
  unfold set_spread at 1. rewrite fold_left_app. fold (set_spread xs).
  destruct (fold_set_add_extends ys (set_spread xs)) as [rest Hrest].
  exists rest. split; [exact Hrest|].
  intros x Hx.
  assert (Hnd : NoDup (set_spread xs ++ rest))
    by (rewrite <- Hrest; apply fold_set_add_NoDup, set_spread_NoDup).
  assert (Hnot : ~ In x xs).
  { intros Hin. apply set_spread_In in Hin.
    apply in_split in Hx. destruct Hx as (l1 & l2 & ->).
    rewrite app_assoc in Hnd.
    apply NoDup_remove_2 in Hnd. apply Hnd.
    apply in_or_app. left. apply in_or_app. now left. }
  split; [assumption|].
  assert (Hin : In x (fold_left set_add ys (set_spread xs)))
    by (rewrite Hrest; apply in_or_app; now right).
  apply fold_set_add_In in Hin. destruct Hin as [Hin|Hin]; [|assumption].
  exfalso. apply Hnot. now apply set_spread_In.
Qed.

(** X25.  The merge keeps what comes first: the learnings (and the
    URLs) of the first task open the merged array, in their order and
    without repeats; what follows is new and comes from later tasks.
    Merging a merged result once more changes nothing. *)
Theorem mergeResults_first_come (r : ResearchResult) (rs : list ResearchResult) :
  (exists rest,
      learnings (mergeResults (r :: rs)) = set_spread (learnings r) ++ rest
      /\ forall x, In x rest ->
           ~ In x (learnings r)
           /\ exists res, In res rs /\ In x (learnings res))
  /\ (exists rest,
      visitedUrls (mergeResults (r :: rs)) = set_spread (visitedUrls r) ++ rest
      /\ forall u, In u rest ->
           ~ In u (visitedUrls r)
           /\ exists res, In res rs /\ In u (visitedUrls res))
  /\ mergeResults [mergeResults (r :: rs)] = mergeResults (r :: rs).
Proof.
  split; [|split].
  - unfold mergeResults. simpl.
    destruct (set_spread_app (learnings r) (flat_map learnings rs))
      as (rest & Heq & Hrest).
    exists rest. split; [exact Heq|].
    intros x Hx. destruct (Hrest x Hx) as [Hn Hin].
    split; [assumption|]. now apply in_flat_map in Hin.
  - unfold mergeResults. simpl.
    destruct (set_spread_app (visitedUrls r) (flat_map visitedUrls rs))
      as (rest & Heq & Hrest).
    exists rest. split; [exact Heq|].
    intros x Hx. destruct (Hrest x Hx) as [Hn Hin].
    split; [assumption|]. now apply in_flat_map in Hin.
  - apply mergeResults_single; apply set_spread_NoDup.
Qed.

(** ** The next query *)

Lemma append_assoc (a b c : string) :
  ((a ++ b) ++ c)%string = (a ++ b ++ c)%string.
Proof. induction a as [|x a IH]; simpl; [reflexivity|now rewrite IH]. Qed.

Lemma trimEnd_keeps (c : ascii) (s : string) :
  is_white c = false -> exists t, trimEnd (String c s) = String c t.
Proof.
  intros H. simpl. destruct (trimEnd s); [rewrite H|]; eauto.
Qed.

Lemma trimEnd_app (a b : string) :
  trimEnd b <> ""%string -> trimEnd (a ++ b) = (a ++ trimEnd b)%string.
Proof.
  intros Hb. induction a as [|x a IH]; [reflexivity|].
  cbn [append trimEnd]. rewrite IH.
  destruct (a ++ trimEnd b)%string eqn:E; [|reflexivity].
  destruct a; simpl in E; [contradiction|discriminate].
Qed.

(** X26.  The query of the next level always opens with the label and
    the research goal of the branch, word for word, followed on a new
    line by the label of the follow-up directions, even when there is
    no follow-up question. *)
Theorem nextQueryOf_carries_goal (serpQuery : SerpQuery) (found : Findings) :
  exists rest,
    nextQueryOf serpQuery found
    = ("Previous research goal: " ++ researchGoal serpQuery ++ newline
       ++ "            Follow-up research directions:" ++ rest)%string.
Proof.
  unfold nextQueryOf, js_trim.
  set (questions := String.concat "" _).
  set (nl := String (ascii_of_nat 10) EmptyString).
  change (trimStart
            (nl ++ "            Previous research goal: "
             ++ researchGoal serpQuery ++ nl
             ++ "            Follow-up research directions: "
             ++ questions ++ nl ++ "          ")%string)
    with ("Previous research goal: " ++ researchGoal serpQuery ++ nl
          ++ "            Follow-up research directions: "
          ++ questions ++ nl ++ "          ")%string.
  destruct (trimEnd_keeps ":"%char (" " ++ questions ++ nl ++ "          ")%string
              eq_refl) as [t Ht].
  exists t.
  assert (Hsplit : forall tail,
            ("Previous research goal: " ++ researchGoal serpQuery ++ nl
             ++ "            Follow-up research directions" ++ tail)%string
            = (("Previous research goal: " ++ researchGoal serpQuery ++ nl
                ++ "            Follow-up research directions") ++ tail)%string)
    by (intros tail; now rewrite !append_assoc).
  change ("Previous research goal: " ++ researchGoal serpQuery ++ nl
          ++ "            Follow-up research directions: "
          ++ questions ++ nl ++ "          ")%string
    with ("Previous research goal: " ++ researchGoal serpQuery ++ nl
          ++ "            Follow-up research directions"
          ++ String ":" (" " ++ questions ++ nl ++ "          "))%string.
  rewrite Hsplit.
  rewrite trimEnd_app by (rewrite Ht; discriminate).
  rewrite Ht, <- Hsplit. reflexivity.
Qed.
